(** * MemoryFlipGameSDL2: the board model and the turn state machine

    A shallow embedding of [MemoryFlipGameSDL2.cpp].  The global variables of
    the program become the fields of the record [Globals]; every function of
    the source that reads or writes them becomes a function on [Globals].
    The calls that only talk to the platform (window, delays) are left out;
    the draw calls of [renderUpdate] are kept as a list of render commands,
    and the loading of the textures at the head of [programStartup], with
    the directory iterator that can throw, is [programStartupOn].

    Conventions.
    - [int] variables are integers of [Z].  Every [int] of the program stays
      far inside the 32-bit range: see [reachable_int_bounds] for the two
      counters and [dstCoords_in_window] for the coordinates.
    - a [std::vector] is a [list]; [v[i]] is the lookup [v !! i], an
      assignment [v[i] = a] is the update [<[i:=a]> v].  An access out of
      range is undefined in C++; here the lookup yields [None] and the
      update leaves the vector as it is, and [reachable_sizes] shows that
      the program never gets there.
    - the two random sources (the Mersenne twister [mt] behind the identity
      digits, and the [default_random_engine] behind the shuffle) are
      streams [nat -> nat]: the value at [k] is what the k-th call returns. *)

From Stdlib Require Import ZArith Lia.
From stdpp Require Import base tactics option numbers list strings pretty relations.

(** ** Data *)

Module SDL_Rect.
Record t : Type := mk { x : Z; y : Z; w : Z; h : Z }.
End SDL_Rect.

Module puzzlePiece.
Inductive VisState : Type := HIDDEN | FLIPPED | SOLVED.
Record t : Type := mk { srcRect : SDL_Rect.t; visState : VisState; id : string }.
End puzzlePiece.

Import puzzlePiece (HIDDEN, FLIPPED, SOLVED).

Inductive ProgramState : Type := STARTUP | PLAY | TRANSITION | SHUTDOWN.

#[global] Instance SDL_Rect_eq_dec : EqDecision SDL_Rect.t.
Proof. solve_decision. Defined.
#[global] Instance VisState_eq_dec : EqDecision puzzlePiece.VisState.
Proof. solve_decision. Defined.
#[global] Instance puzzlePiece_eq_dec : EqDecision puzzlePiece.t.
Proof. solve_decision. Defined.
#[global] Instance ProgramState_eq_dec : EqDecision ProgramState.
Proof. solve_decision. Defined.

Definition puzzlePieceSize : Z := 40.
Definition puzzlePiecesTotal : nat := 100.
Definition maxFlipped : Z := 2.

(** The global state of the program. *)
Record Globals : Type := mkGlobals {
  puzzlePiecesAll : list puzzlePiece.t;
  dstCoords : list SDL_Rect.t;
  flippedCount : Z;
  flippedIndices : list nat;
  flipTimer : Z;
  programState : ProgramState
}.

Definition set_puzzlePiecesAll (v : list puzzlePiece.t) (g : Globals) : Globals :=
  mkGlobals v (dstCoords g) (flippedCount g) (flippedIndices g) (flipTimer g)
            (programState g).
Definition set_dstCoords (v : list SDL_Rect.t) (g : Globals) : Globals :=
  mkGlobals (puzzlePiecesAll g) v (flippedCount g) (flippedIndices g) (flipTimer g)
            (programState g).
Definition set_programState (p : ProgramState) (g : Globals) : Globals :=
  mkGlobals (puzzlePiecesAll g) (dstCoords g) (flippedCount g) (flippedIndices g)
            (flipTimer g) p.

(** A value-initialised [SDL_Rect] and [puzzlePiece]: what the vectors hold
    when the program starts. *)
Definition zeroRect : SDL_Rect.t := SDL_Rect.mk 0 0 0 0.
Definition defaultPiece : puzzlePiece.t := puzzlePiece.mk zeroRect HIDDEN "".

(** The globals as their initialisers leave them, for a board of [total]
    pieces ([total] is [puzzlePiecesTotal] in the program). *)
Definition initGlobals (total : nat) : Globals :=
  {| puzzlePiecesAll := replicate total defaultPiece;
     dstCoords := replicate total zeroRect;
     flippedCount := 0;
     flippedIndices := [0%nat; 0%nat];
     flipTimer := 0;
     programState := STARTUP |}.

(** ** Setup: [programStartup] *)

(** [dist(mt)] for [uniform_int_distribution<int> dist(1, 9)]: the k-th
    draw, a value from 1 to 9. *)
Definition dist (mt : nat → nat) (k : nat) : nat := (1 + mt k `mod` 9)%nat.

(** [std::to_string] of an [int] that is not negative. *)
Definition to_string (n : nat) : string := pretty n.

(** The inner loop [for (int i = 0; i < 10; i++) str += to_string(dist(mt))]:
    [n] rounds are left, [k] draws were made so far. *)
Fixpoint idLoop (mt : nat → nat) (n k : nat) (str : string) : string * nat :=
  match n with
  | O => (str, k)
  | S n' => idLoop mt n' (S k) (str +:+ to_string (dist mt k))
  end.

(** The three running variables of both layout loops. *)
Record Cursor : Type := mkCursor { xOffset : Z; yOffset : Z; rowCount : Z }.

(** The [if (rowCount >= xRowLen) ... else ...] at the end of a layout
    round; [stepLen] is what the offsets grow by. *)
Definition advance (xRowLen stepLen : Z) (c : Cursor) : Cursor :=
  if (rowCount c >=? xRowLen)%Z
  then mkCursor 0 (yOffset c + stepLen) 0
  else mkCursor (xOffset c + stepLen) (yOffset c) (rowCount c + 1).

(** [const int xRowLen = (sqrt(puzzlePiecesTotal) / 2) - 1]: the double is
    truncated towards zero. *)
Definition srcRowLen (total : nat) : Z :=
  if decide (total = 0%nat) then (-1)%Z
  else Z.max 0 (Z.sqrt (Z.of_nat total) / 2 - 1).

(** [const int xRowLen = sqrt(puzzlePiecesTotal) - 1]. *)
Definition dstRowLen (total : nat) : Z := (Z.sqrt (Z.of_nat total) - 1)%Z.

(** The loop [for (int rectI = 0; rectI < sizeHalf; rectI++)]: [n] rounds
    are left.  A round writes the source rectangle and a new identity into
    piece [rectI] and keeps its [visState]. *)
Fixpoint srcLoop (mt : nat → nat) (xRowLen : Z) (n rectI k : nat) (c : Cursor)
    (v : list puzzlePiece.t) : list puzzlePiece.t * nat :=
  match n with
  | O => (v, k)
  | S n' =>
      let '(str, k') := idLoop mt 10 k "" in
      let v' :=
        alter (λ p, puzzlePiece.mk
                      (SDL_Rect.mk (xOffset c) (yOffset c) puzzlePieceSize puzzlePieceSize)
                      (puzzlePiece.visState p) str) rectI v in
      srcLoop mt xRowLen n' (S rectI) k' (advance xRowLen puzzlePieceSize c) v'
  end.

(** [std::copy(first, last, d_first)] inside one vector, front to back:
    [while (first != last) *d_first++ = *first++].  [n] is [last - first]. *)
Fixpoint std_copy {A} (n first d_first : nat) (v : list A) : list A :=
  match n with
  | O => v
  | S n' =>
      let v' := match v !! first with
                | Some a => <[d_first := a]> v
                | None => v
                end in
      std_copy n' (S first) (S d_first) v'
  end.

(** The copy of setup:
    [std::copy(begin, begin + sizeHalf, begin + sizeHalf)]. *)
Definition copyFirstHalf (sizeHalf : nat) (v : list puzzlePiece.t) : list puzzlePiece.t :=
  std_copy sizeHalf 0 sizeHalf v.

Definition xBoardOffset : Z := 75.
Definition yBoardOffset : Z := 40.
Definition betweenPiecesOffset : Z := 5.

(** The loop [for (auto& rect : dstCoords)]. *)
Fixpoint dstLoop (xRowLen : Z) (c : Cursor) (rects : list SDL_Rect.t) : list SDL_Rect.t :=
  match rects with
  | [] => []
  | _ :: rest =>
      SDL_Rect.mk (xOffset c + xBoardOffset) (yOffset c + yBoardOffset)
                  puzzlePieceSize puzzlePieceSize
      :: dstLoop xRowLen (advance xRowLen (puzzlePieceSize + betweenPiecesOffset) c) rest
  end.

(** [std::iter_swap] on two positions of a vector. *)
Definition iter_swap {A} (i j : nat) (v : list A) : list A :=
  match v !! i, v !! j with
  | Some a, Some b => <[j := a]> (<[i := b]> v)
  | _, _ => v
  end.

(** [std::shuffle(first, last, engine)].  The loop is the one of the
    standard library the project is built with: for every target position
    from 1 on, an offset from 0 to the target is drawn and the two elements
    are swapped when the offset is not the target itself.  [n] rounds are
    left; [engine target] is the raw value of the engine that the draw for
    [target] is cut down from. *)
Fixpoint shuffleLoop {A} (engine : nat → nat) (n target : nat) (v : list A) : list A :=
  match n with
  | O => v
  | S n' =>
      let off := (engine target `mod` (target + 1))%nat in
      shuffleLoop engine n' (S target)
                  (if decide (off = target) then v else iter_swap target off v)
  end.

Definition shuffle {A} (engine : nat → nat) (v : list A) : list A :=
  shuffleLoop engine (length v - 1) 1 v.

(** [shufflePuzzlePieces]: the engine is seeded from the clock, so it is an
    argument here. *)
Definition shufflePuzzlePieces (engine : nat → nat) (g : Globals) : Globals :=
  set_puzzlePiecesAll (shuffle engine (puzzlePiecesAll g)) g.

(** The board part of [programStartup] (from [// Set src coords] to the
    end of the function) for a board of [total] pieces.  The part before
    it, which loads the textures, is in [programStartupOn]. *)
Definition programStartup (total : nat) (mt engine : nat → nat) (g : Globals) : Globals :=
  let sizeHalf := (total `div` 2)%nat in
  let '(v, _) := srcLoop mt (srcRowLen total) sizeHalf 0 0 (mkCursor 0 0 0)
                         (puzzlePiecesAll g) in
  let g1 := set_puzzlePiecesAll (copyFirstHalf sizeHalf v) g in
  let g2 := set_dstCoords (dstLoop (dstRowLen total) (mkCursor 0 0 0) (dstCoords g1)) g1 in
  shufflePuzzlePieces engine g2.

(** The [STARTUP] case of [main]: [programStartup(); programState = PLAY]. *)
Definition startGame (total : nat) (mt engine : nat → nat) : Globals :=
  set_programState PLAY (programStartup total mt engine (initGlobals total)).

(** ** Play: [eventPoll], [renderUpdate] and the loop of [main] *)

Module SDL_MouseButtonEvent.
Inductive Button : Type := SDL_BUTTON_LEFT | SDL_BUTTON_MIDDLE | SDL_BUTTON_RIGHT.
Record t : Type := mk { button : Button; x : Z; y : Z }.
End SDL_MouseButtonEvent.

Import SDL_MouseButtonEvent (SDL_BUTTON_LEFT, SDL_BUTTON_MIDDLE, SDL_BUTTON_RIGHT).

#[global] Instance Button_eq_dec : EqDecision SDL_MouseButtonEvent.Button.
Proof. solve_decision. Defined.

(** What [SDL_PollEvent] leaves in [sdlEvent], as far as the [switch] of
    [eventPoll] tells events apart.  When no event is pending the program
    still reads [sdlEvent], which is one of these three as well. *)
Inductive SDL_Event : Type :=
  | SDL_QUIT
  | SDL_MOUSEBUTTONDOWN (btn : SDL_MouseButtonEvent.t)
  | SDL_OTHEREVENT.

Definition mouseWithinRectBound (btn : SDL_MouseButtonEvent.t) (rect : SDL_Rect.t) : bool :=
  if (SDL_MouseButtonEvent.x btn >=? SDL_Rect.x rect)%Z &&
     (SDL_MouseButtonEvent.x btn <=? SDL_Rect.x rect + SDL_Rect.w rect)%Z &&
     (SDL_MouseButtonEvent.y btn >=? SDL_Rect.y rect)%Z &&
     (SDL_MouseButtonEvent.y btn <=? SDL_Rect.y rect + SDL_Rect.h rect)%Z
  then true
  else false.

(** [puzzlePiecesAll[i].visState = st]. *)
Definition setVisState (st : puzzlePiece.VisState) (p : puzzlePiece.t) : puzzlePiece.t :=
  puzzlePiece.mk (puzzlePiece.srcRect p) st (puzzlePiece.id p).

(** [puzzleSolved]: the first piece that is not [SOLVED] ends the loop with
    [false]. *)
Fixpoint puzzleSolved (v : list puzzlePiece.t) : bool :=
  match v with
  | [] => true
  | obj :: rest =>
      if decide (puzzlePiece.visState obj ≠ SOLVED) then false else puzzleSolved rest
  end.

(** The body of [if (flippedCount < maxFlipped)] for the piece at [i]. *)
Definition flipPiece (i : nat) (g : Globals) : Globals :=
  let indices :=
    if decide (flippedCount g = 0%Z) then <[0%nat := i]> (flippedIndices g)
    else if decide (flippedCount g = 1%Z) then <[1%nat := i]> (flippedIndices g)
    else flippedIndices g in
  {| puzzlePiecesAll := alter (setVisState FLIPPED) i (puzzlePiecesAll g);
     dstCoords := dstCoords g;
     flippedCount := flippedCount g + 1;
     flippedIndices := indices;
     flipTimer := flipTimer g;
     programState := programState g |}.

(** The loop [for (int i = 0; i < puzzlePiecesTotal; i++)] of the click
    case: [n] rounds are left.  Both [break]s end the loop. *)
Fixpoint clickLoop (btn : SDL_MouseButtonEvent.t) (n i : nat) (g : Globals) : Globals :=
  match n with
  | O => g
  | S n' =>
      match dstCoords g !! i, puzzlePiecesAll g !! i with
      | Some rect, Some p =>
          if mouseWithinRectBound btn rect &&
             bool_decide (puzzlePiece.visState p = HIDDEN)
          then
            if (flippedCount g <? maxFlipped)%Z then flipPiece i g else g
          else clickLoop btn n' (S i) g
      | _, _ => g
      end
  end.

(** The [switch (sdlEvent.type)] of [eventPoll]. *)
Definition handleEvent (total : nat) (ev : SDL_Event) (g : Globals) : Globals :=
  match ev with
  | SDL_QUIT => set_programState SHUTDOWN g
  | SDL_MOUSEBUTTONDOWN btn =>
      if decide (SDL_MouseButtonEvent.button btn = SDL_BUTTON_LEFT)
      then clickLoop btn total 0 g
      else g
  | SDL_OTHEREVENT => g
  end.

(** The delay threshold of [if (flipTimer > 40)]. *)
Definition flipDelay : Z := 40.

(** Both pending pieces take the state [st]; the counters are reset. *)
Definition settle (st : puzzlePiece.VisState) (g : Globals) : Globals :=
  let i0 := flippedIndices g !!! 0%nat in
  let i1 := flippedIndices g !!! 1%nat in
  {| puzzlePiecesAll := alter (setVisState st) i1 (alter (setVisState st) i0 (puzzlePiecesAll g));
     dstCoords := dstCoords g;
     flippedCount := 0;
     flippedIndices := flippedIndices g;
     flipTimer := 0;
     programState := programState g |}.

(** The second half of [eventPoll]: [if (flippedCount >= maxFlipped) ...]. *)
Definition resolvePending (g : Globals) : Globals :=
  if (flippedCount g >=? maxFlipped)%Z then
    let timer := (flipTimer g + 1)%Z in
    if (timer >? flipDelay)%Z then
      match puzzlePiecesAll g !! (flippedIndices g !!! 0%nat),
            puzzlePiecesAll g !! (flippedIndices g !!! 1%nat) with
      | Some p0, Some p1 =>
          if decide (puzzlePiece.id p0 = puzzlePiece.id p1) then
            let g' := settle SOLVED g in
            if puzzleSolved (puzzlePiecesAll g')
            then set_programState TRANSITION g'
            else g'
          else settle HIDDEN g
      | _, _ => g
      end
    else
      {| puzzlePiecesAll := puzzlePiecesAll g;
         dstCoords := dstCoords g;
         flippedCount := flippedCount g;
         flippedIndices := flippedIndices g;
         flipTimer := timer;
         programState := programState g |}
  else g.

Definition eventPoll (total : nat) (ev : SDL_Event) (g : Globals) : Globals :=
  resolvePending (handleEvent total ev g).

(** The draw calls of [renderUpdate]. *)
Inductive Texture : Type :=
  | pieceHiddenTex
  | flippedOutlineTex
  | puzzleTextures (i : nat).

Inductive RenderCall : Type :=
  | SDL_RenderClear
  | SDL_RenderCopy (tex : Texture) (src : option SDL_Rect.t) (dst : SDL_Rect.t)
  | SDL_RenderPresent.

(** The [if ... else if ...] of one round of the render loop. *)
Definition renderPiece (p : puzzlePiece.t) (dst : SDL_Rect.t) : list RenderCall :=
  if decide (puzzlePiece.visState p = HIDDEN) then
    [SDL_RenderCopy pieceHiddenTex None dst]
  else if decide (puzzlePiece.visState p = FLIPPED) then
    [SDL_RenderCopy (puzzleTextures 0) (Some (puzzlePiece.srcRect p)) dst;
     SDL_RenderCopy flippedOutlineTex None dst]
  else [].

(** The loop [for (int rectI = 0; rectI < puzzlePiecesTotal; rectI++)] of
    [renderUpdate]: [n] rounds are left. *)
Fixpoint renderLoop (n rectI : nat) (g : Globals) : list RenderCall :=
  match n with
  | O => []
  | S n' =>
      match puzzlePiecesAll g !! rectI, dstCoords g !! rectI with
      | Some p, Some dst => renderPiece p dst ++ renderLoop n' (S rectI) g
      | _, _ => []
      end
  end.

Definition renderUpdate (total : nat) (g : Globals) : list RenderCall :=
  SDL_RenderClear :: renderLoop total 0 g ++ [SDL_RenderPresent].

(** One round of the [while] loop of [main]. *)
Inductive mainRound (total : nat) : Globals → Globals → Prop :=
  | round_startup mt engine g :
      programState g = STARTUP →
      mainRound total g (set_programState PLAY (programStartup total mt engine g))
  | round_play ev g :
      programState g = PLAY →
      mainRound total g (eventPoll total ev g)
  | round_transition g :
      programState g = TRANSITION →
      mainRound total g g.

(** The states of play: what the click handler and the delayed comparison
    make of a freshly set up board, in any order. *)
Inductive reachable (total : nat) : Globals → Prop :=
  | reach_start mt engine : reachable total (startGame total mt engine)
  | reach_event ev g : reachable total g → reachable total (handleEvent total ev g)
  | reach_tick g : reachable total g → reachable total (resolvePending g).

(** ** Observations on a board *)

Definition countFlipped (v : list puzzlePiece.t) : nat :=
  length (filter (λ p, puzzlePiece.visState p = FLIPPED) v).

Definition visStates (g : Globals) : list puzzlePiece.VisState :=
  puzzlePiece.visState <$> puzzlePiecesAll g.

Definition ids (v : list puzzlePiece.t) : list string := puzzlePiece.id <$> v.

(** On how many pieces the identity [i] is. *)
Definition countId (i : string) (v : list puzzlePiece.t) : nat :=
  length (filter (λ p, puzzlePiece.id p = i) v).

(** How many identities there are on the board. *)
Definition distinctIds (v : list puzzlePiece.t) : nat :=
  length (remove_dups (ids v)).

(** ** Definitions for the statements *)

(** Every piece of the vector is face down. *)
Definition allHidden (v : list puzzlePiece.t) : Prop :=
  Forall (λ p, puzzlePiece.visState p = HIDDEN) v.

(** The slot rectangles of a board of [total] pieces. *)
Definition dstLayout (total : nat) : list SDL_Rect.t :=
  dstLoop (dstRowLen total) (mkCursor 0 0 0) (replicate total zeroRect).

(** The piece vector when the loop over the first half is through. *)
Definition afterSrcLoop (total : nat) (mt : nat → nat) : list puzzlePiece.t :=
  (srcLoop mt (srcRowLen total) (total `div` 2) 0 0 (mkCursor 0 0 0)
           (replicate total defaultPiece)).1.

(** The piece vector just before the shuffle. *)
Definition beforeShuffle (total : nat) (mt : nat → nat) : list puzzlePiece.t :=
  copyFirstHalf (total `div` 2) (afterSrcLoop total mt).

(** Where the running variables of a layout loop stand after [k] rounds,
    for rows of [m] slots and a step of [stepLen] pixels. *)
Definition gridCursor (m stepLen k : Z) : Cursor :=
  mkCursor (stepLen * (k `mod` m)) (stepLen * (k `div` m)) (k `mod` m).

(** The rectangle of slot [j] on a board with rows of [m] slots. *)
Definition slotRect (m : Z) (j : nat) : SDL_Rect.t :=
  SDL_Rect.mk (45 * (Z.of_nat j `mod` m) + xBoardOffset)
              (45 * (Z.of_nat j `div` m) + yBoardOffset)
              puzzlePieceSize puzzlePieceSize.

(** The invariant of play on a board of [total] pieces: the vectors keep
    their sizes and the slots their layout, [flippedCount] is the number of
    [FLIPPED] pieces and at most [maxFlipped], [flipTimer] is at most the
    delay, and the first [flippedCount] entries of [flippedIndices] are
    different positions of [FLIPPED] pieces. *)
Record Inv (total : nat) (g : Globals) : Prop := mkInv {
  inv_pieces_length : length (puzzlePiecesAll g) = total;
  inv_dstCoords : dstCoords g = dstLayout total;
  inv_indices_length : length (flippedIndices g) = 2;
  inv_count : Z.of_nat (countFlipped (puzzlePiecesAll g)) = flippedCount g;
  inv_count_max : (flippedCount g ≤ maxFlipped)%Z;
  inv_timer : (0 ≤ flipTimer g ≤ flipDelay)%Z;
  inv_first :
    (1 ≤ flippedCount g)%Z →
    puzzlePiece.visState <$> puzzlePiecesAll g !! (flippedIndices g !!! 0) = Some FLIPPED;
  inv_second :
    (flippedCount g = 2)%Z →
    puzzlePiece.visState <$> puzzlePiecesAll g !! (flippedIndices g !!! 1) = Some FLIPPED
    ∧ flippedIndices g !!! 0 ≠ flippedIndices g !!! 1
}.


(** What the platform answers to the calls at the head of [programStartup].
    [readDir path] is the list of the file names that the directory
    iterator over [path] yields, and [None] when iterating throws (the
    directory is missing or cannot be read).  [loadTexture file] tells
    whether [IMG_Load] and [SDL_CreateTextureFromSurface] give a texture for
    [file]; when they do not, the program goes on with a null pointer. *)
Record Platform : Type := mkPlatform {
  readDir : string → option (list string);
  loadTexture : string → bool
}.

(** How a call ends: it returns, or an exception that nothing catches ends
    the program.  The source has no [try] block. *)
Inductive Outcome (A : Type) : Type :=
  | Returned (a : A)
  | Terminated.
Arguments Returned {A} a.
Arguments Terminated {A}.

(** The three texture variables after setup.  A texture is the file it was
    made from; [None] is the null pointer. *)
Record Resources : Type := mkResources {
  hiddenTexture : option string;
  outlineTexture : option string;
  puzzleTextureFiles : list (option string)
}.

Definition puzzlesPath : string := "puzzles/".

(** [tex.reset(SDL_CreateTextureFromSurface(renderer.get(), IMG_Load(file)))]. *)
Definition textureFrom (platform : Platform) (file : string) : option string :=
  if loadTexture platform file then Some file else None.

(** The loop [for (auto& file : dirIter)]: a file whose name holds [.png]
    gives one more element of [puzzleTextures]. *)
Fixpoint puzzleLoop (platform : Platform) (files : list string)
    (textures : list (option string)) : list (option string) :=
  match files with
  | [] => textures
  | file :: rest =>
      if String.index 0 ".png" file is Some _ then
        puzzleLoop platform rest (textures ++ [textureFrom platform (puzzlesPath +:+ file)])
      else puzzleLoop platform rest textures
  end.

(** [programStartup] as a whole: the textures for the hidden state and the
    outline, the textures of the directory [puzzles/], then the board.  The
    SDL calls before them return error codes that the program does not
    look at; only the directory iterator can end the function early. *)
Definition programStartupOn (total : nat) (platform : Platform) (mt engine : nat → nat)
    (g : Globals) : Outcome (Globals * Resources) :=
  let hidden := textureFrom platform "textures/hiddenStateTexture.png" in
  let outline := textureFrom platform "textures/flippedStateOutlineTexture.png" in
  match readDir platform puzzlesPath with
  | None => Terminated
  | Some files =>
      Returned (programStartup total mt engine g,
                mkResources hidden outline (puzzleLoop platform files []))
  end.

(** The [STARTUP] case of [main] on a platform. *)
Definition startGameOn (total : nat) (platform : Platform) (mt engine : nat → nat)
    : Outcome (Globals * Resources) :=
  match programStartupOn total platform mt engine (initGlobals total) with
  | Returned (g, res) => Returned (set_programState PLAY g, res)
  | Terminated => Terminated
  end.


(** A platform with two pictures and a text file in [puzzles/]. *)
Definition twoPuzzles : Platform :=
  mkPlatform (λ path, if decide (path = puzzlesPath)
                      then Some ["frog.png"; "notes.txt"; "snake.png"] else None)
             (λ _, true).

(** Two pieces with one identity, both flipped, and the delay used up. *)
Definition pendingPair : Globals :=
  {| puzzlePiecesAll := [puzzlePiece.mk zeroRect FLIPPED "7"; puzzlePiece.mk zeroRect FLIPPED "7"];
     dstCoords := dstLayout 2;
     flippedCount := 2;
     flippedIndices := [0; 1];
     flipTimer := 40;
     programState := PLAY |}.

(** Three states of the program's own board of 100 pieces, set up without
    any swap in the shuffle: fresh, with slot 0 clicked, and with slot 50
    clicked after it. *)
Definition clickAt (x y : Z) : SDL_Event :=
  SDL_MOUSEBUTTONDOWN (SDL_MouseButtonEvent.mk SDL_BUTTON_LEFT x y).
Definition freshBoard : Globals := startGame puzzlePiecesTotal (λ k, k) (λ k, k).
Definition oneFlipped : Globals := handleEvent puzzlePiecesTotal (clickAt 80 50) freshBoard.
Definition twoFlipped : Globals := handleEvent puzzlePiecesTotal (clickAt 80 270) oneFlipped.

#[global] Instance Texture_eq_dec : EqDecision Texture.
Proof. solve_decision. Defined.
#[global] Instance RenderCall_eq_dec : EqDecision RenderCall.
Proof. solve_decision. Defined.

(** The draw calls of a frame that go to the rectangle [dst]. *)
Definition drawsTo (dst : SDL_Rect.t) (c : RenderCall) : bool :=
  match c with
  | SDL_RenderCopy _ _ d => bool_decide (d = dst)
  | _ => false
  end.
Definition drawsAt (dst : SDL_Rect.t) (calls : list RenderCall) : list RenderCall :=
  filter (λ c, drawsTo dst c = true) calls.

(** The board [twoFlipped] after the 41 frames without input that use up
    the delay: pieces 0 and 50 carry one identity and are [SOLVED]. *)
Definition solvedPair : Globals :=
  Nat.iter 41 (eventPoll puzzlePiecesTotal SDL_OTHEREVENT) twoFlipped.

(** The pieces that carry the identities: the first half as the loop of
    setup leaves it. *)
Definition firstHalf (total : nat) (mt : nat → nat) : list puzzlePiece.t :=
  take (total `div` 2) (afterSrcLoop total mt).

(** A stream of draws that gives piece 1 the ten digits of piece 0, and
    every later piece ten digits of its own. *)
Definition collidingDraws (k : nat) : nat :=
  let r := Nat.max 1 (k `div` 10) in
  match k `mod` 10 with
  | 0 => r `div` 9
  | 1 => r `mod` 9
  | _ => 0
  end.

(** The identity that setup gives piece [r] of the first half: the string
    of the ten draws from draw [10 * r] on. *)
Definition idOf (mt : nat → nat) (r : nat) : string := (idLoop mt 10 (10 * r) "").1.

(** The cell of the puzzle image for piece [r] when the image is cut into
    rows of [m] cells. *)
Definition srcCell (m : Z) (r : nat) : SDL_Rect.t :=
  SDL_Rect.mk (40 * (Z.of_nat r `mod` m)) (40 * (Z.of_nat r `div` m))
              puzzlePieceSize puzzlePieceSize.

(** Piece [r] of the first half as setup leaves it. *)
Definition setupPiece (total : nat) (mt : nat → nat) (r : nat) : puzzlePiece.t :=
  puzzlePiece.mk (srcCell (srcRowLen total + 1) r) HIDDEN (idOf mt r).

(** The string that the identity loop builds from a list of draws. *)
Definition digitsString (draws : list nat) : string :=
  foldr (λ d acc, to_string d +:+ acc) "" draws.

(** Every piece of the vector is solved. *)
Definition allSolved (v : list puzzlePiece.t) : Prop :=
  Forall (λ p, puzzlePiece.visState p = SOLVED) v.

(** What the pieces show and carry, position by position, without their
    [visState]. *)
Definition pictures (v : list puzzlePiece.t) : list (SDL_Rect.t * string) :=
  (λ p, (puzzlePiece.srcRect p, puzzlePiece.id p)) <$> v.

(** On how many [SOLVED] pieces the identity [i] is. *)
Definition countSolvedId (i : string) (v : list puzzlePiece.t) : nat :=
  length (filter (λ p, puzzlePiece.visState p = SOLVED ∧ puzzlePiece.id p = i) v).

(** The calls of [eventPoll] for a list of events, one call per event. *)
Definition runEvents (total : nat) (evs : list SDL_Event) (g : Globals) : Globals :=
  foldl (λ g' ev, eventPoll total ev g') g evs.

(** A board of two pieces, which are one pair, and the same board once
    both slots were clicked and the 41 calls of the delay are over. *)
Definition pairBoard : Globals := startGame 2 (λ _, 0) (λ k, k).
Definition wonBoard : Globals :=
  Nat.iter 41 (eventPoll 2 SDL_OTHEREVENT)
           (handleEvent 2 (clickAt 80 90) (handleEvent 2 (clickAt 80 50) pairBoard)).

(** ** The shuffle *)

Section shuffle_facts.
Context {A : Type}.
Implicit Types v : list A.

Lemma iter_swap_Permutation i j v : iter_swap i j v ≡ₚ v.
Proof.
  unfold iter_swap.
  destruct (v !! i) as [a|] eqn:Hi; [|done].
  destruct (v !! j) as [b|] eqn:Hj; [|done].
  by apply Permutation_insert_swap.
Qed.

Lemma shuffleLoop_Permutation engine n target v :
  shuffleLoop engine n target v ≡ₚ v.
Proof.
  revert target v. induction n as [|n IH]; intros target v; simpl; [done|].
  rewrite IH. case_decide; [done|]. apply iter_swap_Permutation.
Qed.

Lemma shuffle_Permutation engine v : shuffle engine v ≡ₚ v.
Proof. apply shuffleLoop_Permutation. Qed.

Lemma shuffle_length engine v : length (shuffle engine v) = length v.
Proof. by rewrite shuffle_Permutation. Qed.
End shuffle_facts.

(** ** The copy of setup *)

Section std_copy_facts.
Context {A : Type}.
Implicit Types v : list A.

Lemma std_copy_length n first d_first v :
  length (std_copy n first d_first v) = length v.
Proof.
  revert first d_first v. induction n as [|n IH]; intros first d_first v; simpl; [done|].
  rewrite IH. destruct (v !! first); [apply length_insert|done].
Qed.

(** When the source range ends before the destination starts, the
    destination range receives the source range and nothing else moves. *)
Lemma std_copy_lookup n first d_first v j :
  first + n ≤ d_first →
  d_first + n ≤ length v →
  std_copy n first d_first v !! j =
    if decide (d_first ≤ j < d_first + n) then v !! (first + (j - d_first)) else v !! j.
Proof.
  revert first d_first v. induction n as [|n IH]; intros first d_first v Hsrc Hdst; simpl.
  { case_decide; [lia|done]. }
  destruct (v !! first) as [a|] eqn:Ha.
  2:{ apply lookup_ge_None in Ha. exfalso. lia. }
  rewrite IH by (rewrite ?length_insert; lia).
  destruct (decide (j = d_first)) as [->|Hj].
  - rewrite list_lookup_insert_eq by lia.
    rewrite !decide_False, decide_True by lia.
    by rewrite Nat.sub_diag, Nat.add_0_r.
  - repeat case_decide; try (exfalso; lia).
    + rewrite list_lookup_insert_ne by lia. f_equal. lia.
    + by rewrite list_lookup_insert_ne by lia.
Qed.
End std_copy_facts.

Lemma copyFirstHalf_spec sizeHalf (v : list puzzlePiece.t) :
  2 * sizeHalf ≤ length v →
  copyFirstHalf sizeHalf v = take sizeHalf v ++ take sizeHalf v ++ drop (2 * sizeHalf) v.
Proof.
  intros Hlen. apply list_eq. intros j. unfold copyFirstHalf.
  rewrite std_copy_lookup by lia. simpl.
  destruct (decide (j < sizeHalf)) as [Hj|Hj].
  - rewrite decide_False by lia.
    rewrite lookup_app_l by (rewrite length_take; lia).
    by rewrite lookup_take_lt.
  - rewrite lookup_app_r by (rewrite length_take; lia).
    rewrite length_take, Nat.min_l by lia.
    case_decide as Hj2.
    + rewrite lookup_app_l by (rewrite length_take; lia).
      by rewrite lookup_take_lt by lia.
    + rewrite lookup_app_r by (rewrite length_take; lia).
      rewrite length_take, Nat.min_l by lia.
      rewrite lookup_drop. f_equal. lia.
Qed.

(** ** What setup leaves behind *)

Lemma srcLoop_length mt xRowLen n rectI k c v :
  length (srcLoop mt xRowLen n rectI k c v).1 = length v.
Proof.
  revert rectI k c v. induction n as [|n IH]; intros rectI k c v; simpl; [done|].
  destruct (idLoop mt 10 k "") as [str k']. by rewrite IH, length_alter.
Qed.

Lemma srcLoop_allHidden mt xRowLen n rectI k c v :
  allHidden v → allHidden (srcLoop mt xRowLen n rectI k c v).1.
Proof.
  revert rectI k c v. induction n as [|n IH]; intros rectI k c v Hv; simpl; [done|].
  destruct (idLoop mt 10 k "") as [str k']. apply IH.
  apply Forall_alter; [done|]. by intros p _ Hp.
Qed.

Lemma std_copy_Forall {A} (P : A → Prop) n first d_first (v : list A) :
  Forall P v → Forall P (std_copy n first d_first v).
Proof.
  revert first d_first v. induction n as [|n IH]; intros first d_first v Hv; simpl; [done|].
  apply IH. destruct (v !! first) as [a|] eqn:Ha; [|done].
  apply Forall_insert; [done|]. by eapply Forall_lookup_1.
Qed.

Lemma dstLoop_length xRowLen c rects : length (dstLoop xRowLen c rects) = length rects.
Proof.
  revert c. induction rects as [|r rects IH]; intros c; simpl; [done|]. by rewrite IH.
Qed.

Lemma programStartup_pieces total mt engine :
  puzzlePiecesAll (programStartup total mt engine (initGlobals total))
  = shuffle engine (beforeShuffle total mt).
Proof.
  unfold programStartup, beforeShuffle, afterSrcLoop. simpl.
  by destruct (srcLoop _ _ _ _ _ _ _) as [v k].
Qed.

Lemma startGame_eq total mt engine :
  startGame total mt engine =
    {| puzzlePiecesAll := shuffle engine (beforeShuffle total mt);
       dstCoords := dstLayout total;
       flippedCount := 0;
       flippedIndices := [0%nat; 0%nat];
       flipTimer := 0;
       programState := PLAY |}.
Proof.
  unfold startGame, programStartup, beforeShuffle, afterSrcLoop. simpl.
  by destruct (srcLoop _ _ _ _ _ _ _) as [v k].
Qed.

Lemma beforeShuffle_length total mt : length (beforeShuffle total mt) = total.
Proof.
  unfold beforeShuffle, copyFirstHalf, afterSrcLoop.
  by rewrite std_copy_length, srcLoop_length, length_replicate.
Qed.

Lemma beforeShuffle_allHidden total mt : allHidden (beforeShuffle total mt).
Proof.
  apply std_copy_Forall, srcLoop_allHidden, Forall_replicate. done.
Qed.

Lemma dstLayout_length total : length (dstLayout total) = total.
Proof. unfold dstLayout. by rewrite dstLoop_length, length_replicate. Qed.

(** ** The grid of slots *)

Lemma advance_gridCursor m stepLen k :
  (1 ≤ m)%Z → (0 ≤ k)%Z →
  advance (m - 1) stepLen (gridCursor m stepLen k) = gridCursor m stepLen (k + 1).
Proof.
  intros Hm Hk. unfold advance, gridCursor. simpl.
  pose proof (Z.mod_pos_bound k m ltac:(lia)) as Hr.
  pose proof (Z.div_mod k m ltac:(lia)) as Hdm.
  destruct (Z.geb_spec (k `mod` m) (m - 1)) as [Hge|Hlt].
  - assert ((k + 1) `mod` m = 0)%Z as ->.
    { symmetry. apply (Z.mod_unique_pos _ _ (k `div` m + 1)); lia. }
    assert ((k + 1) `div` m = k `div` m + 1)%Z as ->.
    { symmetry. apply (Z.div_unique_pos _ _ _ 0); lia. }
    f_equal; lia.
  - assert ((k + 1) `mod` m = k `mod` m + 1)%Z as ->.
    { symmetry. apply (Z.mod_unique_pos _ _ (k `div` m)); lia. }
    assert ((k + 1) `div` m = k `div` m)%Z as ->.
    { symmetry. apply (Z.div_unique_pos _ _ _ (k `mod` m + 1)); lia. }
    f_equal; lia.
Qed.

Lemma dstLoop_lookup m k rects j :
  (1 ≤ m)%Z → j < length rects →
  dstLoop (m - 1) (gridCursor m 45 (Z.of_nat k)) rects !! j = Some (slotRect m (k + j)).
Proof.
  intros Hm. revert k j. induction rects as [|r rects IH]; intros k j Hj; simpl in *; [lia|].
  destruct j as [|j]; simpl.
  - by rewrite Nat.add_0_r.
  - change (puzzlePieceSize + betweenPiecesOffset)%Z with 45%Z.
    rewrite advance_gridCursor by lia.
    replace (Z.of_nat k + 1)%Z with (Z.of_nat (S k)) by lia.
    rewrite IH by lia. do 2 f_equal. lia.
Qed.

Lemma dstLayout_lookup total j :
  j < total → dstLayout total !! j = Some (slotRect (Z.sqrt (Z.of_nat total)) j).
Proof.
  intros Hj. unfold dstLayout, dstRowLen.
  assert (1 ≤ Z.sqrt (Z.of_nat total))%Z as Hm.
  { pose proof (proj2 (Z.sqrt_pos (Z.of_nat total))). lia. }
  change (mkCursor 0 0 0) with (gridCursor (Z.sqrt (Z.of_nat total)) 45 (Z.of_nat 0)).
  rewrite dstLoop_lookup by (rewrite ?length_replicate; lia). done.
Qed.

Lemma mouseWithinRectBound_true btn rect :
  mouseWithinRectBound btn rect = true ↔
  (SDL_Rect.x rect ≤ SDL_MouseButtonEvent.x btn ≤ SDL_Rect.x rect + SDL_Rect.w rect ∧
   SDL_Rect.y rect ≤ SDL_MouseButtonEvent.y btn ≤ SDL_Rect.y rect + SDL_Rect.h rect)%Z.
Proof.
  unfold mouseWithinRectBound.
  destruct (Z.geb_spec (SDL_MouseButtonEvent.x btn) (SDL_Rect.x rect));
    destruct (Z.leb_spec (SDL_MouseButtonEvent.x btn) (SDL_Rect.x rect + SDL_Rect.w rect));
    destruct (Z.geb_spec (SDL_MouseButtonEvent.y btn) (SDL_Rect.y rect));
    destruct (Z.leb_spec (SDL_MouseButtonEvent.y btn) (SDL_Rect.y rect + SDL_Rect.h rect));
    simpl; split; intros; try done; lia.
Qed.

(** Two slots of one grid that hold the same point are the same slot. *)
Lemma slotRect_disjoint m btn i j :
  (1 ≤ m)%Z →
  mouseWithinRectBound btn (slotRect m i) = true →
  mouseWithinRectBound btn (slotRect m j) = true →
  i = j.
Proof.
  intros Hm [Hxi Hyi]%mouseWithinRectBound_true [Hxj Hyj]%mouseWithinRectBound_true.
  unfold slotRect, xBoardOffset, yBoardOffset, puzzlePieceSize in *. simpl in *.
  pose proof (Z.div_mod (Z.of_nat i) m ltac:(lia)).
  pose proof (Z.div_mod (Z.of_nat j) m ltac:(lia)).
  assert (Z.of_nat i `mod` m = Z.of_nat j `mod` m)%Z by lia.
  assert (Z.of_nat i `div` m = Z.of_nat j `div` m)%Z by lia.
  apply Nat2Z.inj. congruence.
Qed.

Lemma dstLayout_disjoint total btn i j ri rj :
  dstLayout total !! i = Some ri →
  dstLayout total !! j = Some rj →
  mouseWithinRectBound btn ri = true →
  mouseWithinRectBound btn rj = true →
  i = j.
Proof.
  intros Hi Hj Hwi Hwj.
  pose proof (lookup_lt_Some _ _ _ Hi) as Hli.
  pose proof (lookup_lt_Some _ _ _ Hj) as Hlj.
  rewrite dstLayout_length in Hli, Hlj.
  rewrite dstLayout_lookup in Hi, Hj by done. simplify_eq.
  eapply (slotRect_disjoint (Z.sqrt (Z.of_nat total))); [|done..].
  pose proof (proj2 (Z.sqrt_pos (Z.of_nat total))). lia.
Qed.

(** ** Counting flipped pieces *)

Lemma countFlipped_nil : countFlipped [] = 0.
Proof. done. Qed.

Lemma countFlipped_cons p v :
  countFlipped (p :: v) =
    (if decide (puzzlePiece.visState p = FLIPPED) then 1 else 0) + countFlipped v.
Proof. unfold countFlipped. rewrite filter_cons. by case_decide. Qed.

Lemma countFlipped_allHidden v : allHidden v → countFlipped v = 0.
Proof.
  induction 1 as [|p v Hp _ IH]; [done|].
  rewrite countFlipped_cons, IH, decide_False; [done|]. by rewrite Hp.
Qed.

(** Writing the state [st] into piece [i] moves the count by what piece [i]
    was and what it becomes. *)
Lemma countFlipped_alter st i v p :
  v !! i = Some p →
  countFlipped (alter (setVisState st) i v)
    + (if decide (puzzlePiece.visState p = FLIPPED) then 1 else 0)
  = countFlipped v + (if decide (st = FLIPPED) then 1 else 0).
Proof.
  revert i. induction v as [|q v IH]; intros [|i] Hi; simplify_eq/=.
  - rewrite !countFlipped_cons. simpl. lia.
  - rewrite !countFlipped_cons. specialize (IH _ Hi). lia.
Qed.

Lemma countFlipped_Permutation v v' : v ≡ₚ v' → countFlipped v = countFlipped v'.
Proof. intros Hp. unfold countFlipped. by rewrite Hp. Qed.

(** ** The invariant of play *)

Lemma Inv_startGame total mt engine : Inv total (startGame total mt engine).
Proof.
  rewrite startGame_eq. split; simpl; try done; try lia.
  - by rewrite shuffle_length, beforeShuffle_length.
  - rewrite (countFlipped_Permutation _ _ (shuffle_Permutation _ _)).
    by rewrite countFlipped_allHidden by apply beforeShuffle_allHidden.
Qed.

Lemma Inv_set_programState total st g : Inv total g → Inv total (set_programState st g).
Proof. intros []. by split. Qed.

Lemma Inv_flipPiece total i p g :
  Inv total g →
  (flippedCount g < maxFlipped)%Z →
  puzzlePiecesAll g !! i = Some p →
  puzzlePiece.visState p = HIDDEN →
  Inv total (flipPiece i g).
Proof.
  intros [Hlen Hdst Hil Hcnt Hmax Htm H1 H2] Hlt Hp Hhid. unfold maxFlipped in *.
  pose proof (countFlipped_alter FLIPPED i _ p Hp) as Hc.
  rewrite Hhid, decide_False, decide_True in Hc by done.
  assert (alter (setVisState FLIPPED) i (puzzlePiecesAll g) !! i
          = Some (setVisState FLIPPED p)) as Hi.
  { by rewrite list_lookup_alter_eq, Hp. }
  assert ((1 ≤ flippedCount g)%Z → flippedIndices g !!! 0 ≠ i) as Hne.
  { intros Hge Heq. specialize (H1 Hge). rewrite Heq, Hp in H1. simpl in H1. congruence. }
  split; simpl.
  - by rewrite length_alter.
  - done.
  - repeat case_decide; by rewrite ?length_insert.
  - lia.
  - unfold maxFlipped. lia.
  - done.
  - intros _. case_decide as Hz.
    + rewrite list_lookup_total_insert_eq by lia. by rewrite Hi.
    + assert (1 ≤ flippedCount g)%Z as Hge by lia.
      rewrite decide_True by lia.
      rewrite list_lookup_total_insert_ne by done.
      rewrite list_lookup_alter_ne by (specialize (Hne Hge); congruence).
      by apply H1.
  - intros Hfc. rewrite decide_False, decide_True by lia.
    rewrite list_lookup_total_insert_eq by lia.
    rewrite list_lookup_total_insert_ne by done.
    rewrite Hi. split; [done|]. apply Hne. lia.
Qed.

Lemma clickLoop_cases btn n i g :
  clickLoop btn n i g = g ∨
  ∃ j p, puzzlePiecesAll g !! j = Some p ∧ puzzlePiece.visState p = HIDDEN ∧
         (flippedCount g < maxFlipped)%Z ∧ clickLoop btn n i g = flipPiece j g.
Proof.
  revert i. induction n as [|n IH]; intros i; simpl; [by left|].
  destruct (dstCoords g !! i) as [rect|]; [|by left].
  destruct (puzzlePiecesAll g !! i) as [p|] eqn:Hp; [|by left].
  destruct (mouseWithinRectBound btn rect && _) eqn:Hhit; [|apply IH].
  apply andb_true_iff in Hhit as [_ Hhid%bool_decide_eq_true].
  destruct (Z.ltb_spec (flippedCount g) maxFlipped); [|by left].
  right. by exists i, p.
Qed.

Lemma Inv_handleEvent total ev g : Inv total g → Inv total (handleEvent total ev g).
Proof.
  intros HI. destruct ev as [|btn|]; simpl; [by apply Inv_set_programState| |done].
  case_decide; [|done].
  destruct (clickLoop_cases btn total 0 g) as [->|(j & p & Hp & Hhid & Hlt & ->)]; [done|].
  by eapply Inv_flipPiece.
Qed.

Lemma Inv_settle total st g :
  Inv total g → (flippedCount g >= maxFlipped)%Z → st ≠ FLIPPED → Inv total (settle st g).
Proof.
  intros [Hlen Hdst Hil Hcnt Hmax Htm H1 H2] Hge Hst. unfold maxFlipped in *.
  assert (flippedCount g = 2)%Z as Hfc by lia.
  specialize (H1 ltac:(lia)). destruct (H2 Hfc) as [H2' Hne]. clear H2.
  set (i0 := flippedIndices g !!! 0) in *. set (i1 := flippedIndices g !!! 1) in *.
  destruct (puzzlePiecesAll g !! i0) as [p0|] eqn:Hp0; simplify_eq/=.
  destruct (puzzlePiecesAll g !! i1) as [p1|] eqn:Hp1; simplify_eq/=.
  pose proof (countFlipped_alter st i0 _ p0 Hp0) as Hc0.
  assert (alter (setVisState st) i0 (puzzlePiecesAll g) !! i1 = Some p1) as Hp1'.
  { by rewrite list_lookup_alter_ne. }
  pose proof (countFlipped_alter st i1 _ p1 Hp1') as Hc1.
  rewrite H1, decide_True, decide_False in Hc0 by done.
  rewrite H2', decide_True, decide_False in Hc1 by done.
  split; simpl; fold i0 i1; try done; try lia.
  by rewrite !length_alter.
Qed.

Lemma Inv_resolvePending total g : Inv total g → Inv total (resolvePending g).
Proof.
  intros HI. unfold resolvePending.
  destruct (Z.geb_spec (flippedCount g) maxFlipped) as [Hge|]; [|done].
  destruct (Z.gtb_spec (flipTimer g + 1) flipDelay) as [Hgt|Hle].
  - destruct (puzzlePiecesAll g !! _) as [p0|]; [|done].
    destruct (puzzlePiecesAll g !! _) as [p1|]; [|done].
    case_decide.
    + assert (Inv total (settle SOLVED g)) by (apply Inv_settle; [done|lia|done]).
      destruct (puzzleSolved _); [by apply Inv_set_programState|done].
    + apply Inv_settle; [done|lia|done].
  - destruct HI. split; simpl; try done. lia.
Qed.

Lemma reachable_Inv total g : reachable total g → Inv total g.
Proof.
  induction 1; auto using Inv_startGame, Inv_handleEvent, Inv_resolvePending.
Qed.

(** ** The shuffle touches the pieces only *)

(** C1.  [shufflePuzzlePieces] permutes [puzzlePiecesAll] and nothing else:
    for every state and every engine, the pieces after the shuffle are a
    permutation of the pieces before it, and [dstCoords] is the very same
    vector, slot for slot, of the same length.  After setup this vector is
    the grid as the layout loop computed it, one rectangle per piece. *)
Theorem shuffle_permutes_pieces_only engine g :
  puzzlePiecesAll (shufflePuzzlePieces engine g) ≡ₚ puzzlePiecesAll g
  ∧ dstCoords (shufflePuzzlePieces engine g) = dstCoords g
  ∧ length (dstCoords (shufflePuzzlePieces engine g)) = length (dstCoords g)
  ∧ ∀ total mt,
      dstCoords (programStartup total mt engine (initGlobals total)) = dstLayout total
      ∧ length (dstCoords (programStartup total mt engine (initGlobals total))) = total.
Proof.
  split; [apply shuffle_Permutation|]. split; [done|]. split; [done|].
  intros total mt.
  assert (dstCoords (programStartup total mt engine (initGlobals total)) = dstLayout total)
    as ->; [|by rewrite dstLayout_length].
  unfold programStartup. simpl. by destruct (srcLoop _ _ _ _ _ _ _).
Qed.

(** ** The copy of the first half *)

(** The copy of setup is not a no-op.  On the board of the program, with
    every draw a 1, piece 50 has the empty identity before the copy and the
    identity of piece 0 after it, so the vector after the copy is not the
    vector before it. *)
Lemma copy_of_setup_is_not_a_noop :
  puzzlePiece.id <$> afterSrcLoop puzzlePiecesTotal (λ _, 0) !! 50 = Some ""
  ∧ puzzlePiece.id <$>
      copyFirstHalf (puzzlePiecesTotal `div` 2) (afterSrcLoop puzzlePiecesTotal (λ _, 0)) !! 50
    = Some "1111111111"
  ∧ copyFirstHalf (puzzlePiecesTotal `div` 2) (afterSrcLoop puzzlePiecesTotal (λ _, 0))
    ≠ afterSrcLoop puzzlePiecesTotal (λ _, 0).
Proof.
  split; [by vm_compute|]. split; [by vm_compute|].
  intros Heq.
  apply (f_equal (λ v : list puzzlePiece.t, puzzlePiece.id <$> v !! 50)) in Heq.
  vm_compute in Heq. discriminate.
Qed.

(** C3, amended.  On a vector of [total] pieces the copy of setup keeps the
    first half, writes the first half over the second half, and leaves
    what lies behind both halves alone; it changes nothing exactly when the
    second half already was a copy of the first. *)
Theorem copy_duplicates_first_half total (v : list puzzlePiece.t) :
  length v = total →
  let sizeHalf := total `div` 2 in
  let v' := copyFirstHalf sizeHalf v in
  length v' = total
  ∧ (∀ i, i < sizeHalf → v' !! i = v !! i ∧ v' !! (sizeHalf + i) = v !! i)
  ∧ (∀ i, 2 * sizeHalf ≤ i → v' !! i = v !! i)
  ∧ (v' = v ↔ take sizeHalf (drop sizeHalf v) = take sizeHalf v).
Proof.
  intros Hlen sizeHalf v'.
  assert (2 * sizeHalf ≤ length v) as Hfit.
  { subst sizeHalf. pose proof (Nat.Div0.mul_div_le total 2). lia. }
  assert (∀ j, v' !! j =
            if decide (sizeHalf ≤ j < sizeHalf + sizeHalf)
            then v !! (j - sizeHalf) else v !! j) as Hlook.
  { intros j. unfold v', copyFirstHalf. rewrite std_copy_lookup by lia. done. }
  split; [by unfold v', copyFirstHalf; rewrite std_copy_length|].
  split; [|split].
  - intros i Hi. rewrite !Hlook.
    rewrite decide_False, decide_True by lia. split; [done|]. f_equal. lia.
  - intros i Hi. rewrite Hlook. by rewrite decide_False by lia.
  - split.
    + intros Heq. apply list_eq. intros j.
      destruct (decide (j < sizeHalf)) as [Hj|Hj].
      * rewrite !lookup_take_lt, lookup_drop by done.
        rewrite <-Heq at 1. rewrite Hlook, decide_True by lia. f_equal. lia.
      * by rewrite !lookup_take_ge by lia.
    + intros Heq. apply list_eq. intros j. rewrite Hlook.
      case_decide as Hj; [|done].
      apply (f_equal (λ l : list puzzlePiece.t, l !! (j - sizeHalf))) in Heq.
      rewrite !lookup_take_lt, lookup_drop in Heq by lia.
      rewrite <-Heq. f_equal. lia.
Qed.

Lemma copy_duplicates_first_half_witness :
  let v := [puzzlePiece.mk zeroRect HIDDEN "12"; puzzlePiece.mk zeroRect HIDDEN "34";
            defaultPiece; defaultPiece] in
  length (copyFirstHalf 2 v) = 4
  ∧ (∀ i, i < 2 → copyFirstHalf 2 v !! i = v !! i ∧ copyFirstHalf 2 v !! (2 + i) = v !! i)
  ∧ (∀ i, 2 * 2 ≤ i → copyFirstHalf 2 v !! i = v !! i)
  ∧ (copyFirstHalf 2 v = v ↔ take 2 (drop 2 v) = take 2 v).
Proof.
  intros v. apply (copy_duplicates_first_half 4 v). reflexivity.
Defined.

(** ** Setup and the number of pieces *)


(** With the directory in place setup gets through: of the three files of
    [twoPuzzles] the two pictures become the puzzle textures, in the order
    of the directory, and [main] goes on to [PLAY]. *)
Lemma setup_loads_png_files :
  startGameOn puzzlePiecesTotal twoPuzzles (λ k, k) (λ k, k)
  = Returned (freshBoard,
              mkResources (Some "textures/hiddenStateTexture.png")
                          (Some "textures/flippedStateOutlineTexture.png")
                          [Some "puzzles/frog.png"; Some "puzzles/snake.png"])
  ∧ programState freshBoard = PLAY.
Proof. split; reflexivity. Qed.



(** ** At most one slot under the mouse *)

(** C10.  The slot rectangles of setup do not meet, also under the test of
    [mouseWithinRectBound] that counts both borders in: a point that lies
    in slot [i] lies in no other slot, and the first slot in slot order
    that holds the point is slot [i]. *)
Theorem slots_pairwise_disjoint total mt engine btn i ri :
  dstCoords (startGame total mt engine) !! i = Some ri →
  mouseWithinRectBound btn ri = true →
  (∀ j rj, dstCoords (startGame total mt engine) !! j = Some rj →
           mouseWithinRectBound btn rj = true → j = i)
  ∧ list_find (λ r, mouseWithinRectBound btn r = true)
              (dstCoords (startGame total mt engine)) = Some (i, ri).
Proof.
  rewrite startGame_eq. simpl. intros Hi Hwi.
  assert (∀ j rj, dstLayout total !! j = Some rj →
                  mouseWithinRectBound btn rj = true → j = i) as Huniq.
  { intros j rj Hj Hwj. by eapply dstLayout_disjoint. }
  split; [done|].
  apply list_find_Some. split; [done|]. split; [done|].
  intros j rj Hj Hlt Hwj. specialize (Huniq j rj Hj Hwj). lia.
Qed.

Lemma slots_pairwise_disjoint_witness :
  (∀ j rj, dstCoords (startGame puzzlePiecesTotal (λ _, 0) (λ _, 0)) !! j = Some rj →
           mouseWithinRectBound (SDL_MouseButtonEvent.mk SDL_BUTTON_LEFT 160 85) rj = true →
           j = 11)
  ∧ list_find (λ r, mouseWithinRectBound
                      (SDL_MouseButtonEvent.mk SDL_BUTTON_LEFT 160 85) r = true)
              (dstCoords (startGame puzzlePiecesTotal (λ _, 0) (λ _, 0)))
    = Some (11, SDL_Rect.mk 120 85 40 40).
Proof.
  apply (slots_pairwise_disjoint puzzlePiecesTotal (λ _, 0) (λ _, 0)
           (SDL_MouseButtonEvent.mk SDL_BUTTON_LEFT 160 85) 11 (SDL_Rect.mk 120 85 40 40)).
  - vm_compute. reflexivity.
  - vm_compute. reflexivity.
Defined.

(** ** The delayed comparison *)

Lemma puzzleSolved_true v :
  puzzleSolved v = true ↔ Forall (λ p, puzzlePiece.visState p = SOLVED) v.
Proof.
  induction v as [|p v IH]; simpl; [done|].
  rewrite Forall_cons. case_decide as Hp.
  - split; [done|]. by intros [? _].
  - rewrite IH. tauto.
Qed.

Lemma settle_lookup st g j :
  puzzlePiecesAll (settle st g) !! j =
    if decide (j = flippedIndices g !!! 0 ∨ j = flippedIndices g !!! 1)
    then setVisState st <$> puzzlePiecesAll g !! j
    else puzzlePiecesAll g !! j.
Proof.
  unfold settle. simpl.
  set (i0 := flippedIndices g !!! 0). set (i1 := flippedIndices g !!! 1).
  destruct (decide (j = i1)) as [->|H1].
  - rewrite list_lookup_alter_eq, decide_True by auto.
    destruct (decide (i1 = i0)) as [->|H0].
    + rewrite list_lookup_alter_eq. by destruct (puzzlePiecesAll g !! i0).
    + by rewrite list_lookup_alter_ne.
  - rewrite list_lookup_alter_ne by done.
    destruct (decide (j = i0)) as [->|H0].
    + by rewrite list_lookup_alter_eq, decide_True by auto.
    + rewrite list_lookup_alter_ne by done.
      rewrite decide_False; [done|]. intros [?|?]; done.
Qed.

(** C4.  In a state with two pending pieces, the call of [eventPoll] that
    takes [flipTimer] past the delay compares them.  Both counters are 0
    afterwards.  Equal identities: both pieces are [SOLVED], and the program
    state is [TRANSITION] when every piece is [SOLVED] now and as before
    otherwise.  Different identities: both pieces are [HIDDEN] and the
    program state is as before.  No other piece and no slot changes. *)
Theorem resolution_after_delay g p0 p1 :
  (flippedCount g >= maxFlipped)%Z →
  puzzlePiecesAll g !! (flippedIndices g !!! 0) = Some p0 →
  puzzlePiecesAll g !! (flippedIndices g !!! 1) = Some p1 →
  (flipTimer g + 1 > flipDelay)%Z →
  let g' := resolvePending g in
  let vis j := puzzlePiece.visState <$> puzzlePiecesAll g' !! j in
  flippedCount g' = 0%Z ∧ flipTimer g' = 0%Z ∧ dstCoords g' = dstCoords g
  ∧ (∀ j, j ≠ flippedIndices g !!! 0 → j ≠ flippedIndices g !!! 1 →
          puzzlePiecesAll g' !! j = puzzlePiecesAll g !! j)
  ∧ (puzzlePiece.id p0 = puzzlePiece.id p1 →
       vis (flippedIndices g !!! 0) = Some SOLVED
       ∧ vis (flippedIndices g !!! 1) = Some SOLVED
       ∧ (Forall (λ p, puzzlePiece.visState p = SOLVED) (puzzlePiecesAll g') →
          programState g' = TRANSITION)
       ∧ (¬ Forall (λ p, puzzlePiece.visState p = SOLVED) (puzzlePiecesAll g') →
          programState g' = programState g))
  ∧ (puzzlePiece.id p0 ≠ puzzlePiece.id p1 →
       vis (flippedIndices g !!! 0) = Some HIDDEN
       ∧ vis (flippedIndices g !!! 1) = Some HIDDEN
       ∧ programState g' = programState g).
Proof.
  intros Hge Hp0 Hp1 Hgt g' vis. subst g' vis. unfold resolvePending.
  destruct (Z.geb_spec (flippedCount g) maxFlipped); [|lia].
  destruct (Z.gtb_spec (flipTimer g + 1) flipDelay); [|lia].
  rewrite Hp0, Hp1.
  assert (∀ st, puzzlePiece.visState <$>
                  puzzlePiecesAll (settle st g) !! (flippedIndices g !!! 0) = Some st) as Hfst.
  { intros st. rewrite settle_lookup, decide_True, Hp0 by auto. done. }
  assert (∀ st, puzzlePiece.visState <$>
                  puzzlePiecesAll (settle st g) !! (flippedIndices g !!! 1) = Some st) as Hsnd.
  { intros st. rewrite settle_lookup, decide_True, Hp1 by auto. done. }
  assert (∀ st j, j ≠ flippedIndices g !!! 0 → j ≠ flippedIndices g !!! 1 →
                  puzzlePiecesAll (settle st g) !! j = puzzlePiecesAll g !! j) as Hother.
  { intros st j ??. rewrite settle_lookup, decide_False; [done|]. intros [?|?]; done. }
  case_decide as Hid.
  - destruct (puzzleSolved (puzzlePiecesAll (settle SOLVED g))) eqn:Hall.
    + split_and!; [done|done|done|apply Hother| |done].
      intros _. split_and!; [apply Hfst|apply Hsnd|done|].
      intros Hnot. exfalso. by apply Hnot, puzzleSolved_true.
    + split_and!; [done|done|done|apply Hother| |done].
      intros _. split_and!; [apply Hfst|apply Hsnd| |done].
      intros Hyes%puzzleSolved_true. congruence.
  - split_and!; [done|done|done|apply Hother|done|].
    intros _. split_and!; [apply Hfst|apply Hsnd|done].
Qed.

Lemma resolution_after_delay_witness :
  flippedCount (resolvePending pendingPair) = 0%Z
  ∧ flipTimer (resolvePending pendingPair) = 0%Z
  ∧ dstCoords (resolvePending pendingPair) = dstCoords pendingPair
  ∧ (∀ j, j ≠ 0 → j ≠ 1 →
          puzzlePiecesAll (resolvePending pendingPair) !! j = puzzlePiecesAll pendingPair !! j)
  ∧ ("7" = "7" →
       puzzlePiece.visState <$> puzzlePiecesAll (resolvePending pendingPair) !! 0 = Some SOLVED
       ∧ puzzlePiece.visState <$> puzzlePiecesAll (resolvePending pendingPair) !! 1 = Some SOLVED
       ∧ (Forall (λ p, puzzlePiece.visState p = SOLVED)
                 (puzzlePiecesAll (resolvePending pendingPair)) →
          programState (resolvePending pendingPair) = TRANSITION)
       ∧ (¬ Forall (λ p, puzzlePiece.visState p = SOLVED)
                   (puzzlePiecesAll (resolvePending pendingPair)) →
          programState (resolvePending pendingPair) = programState pendingPair))
  ∧ ("7" ≠ "7" →
       puzzlePiece.visState <$> puzzlePiecesAll (resolvePending pendingPair) !! 0 = Some HIDDEN
       ∧ puzzlePiece.visState <$> puzzlePiecesAll (resolvePending pendingPair) !! 1 = Some HIDDEN
       ∧ programState (resolvePending pendingPair) = programState pendingPair).
Proof.
  apply (resolution_after_delay pendingPair
           (puzzlePiece.mk zeroRect FLIPPED "7") (puzzlePiece.mk zeroRect FLIPPED "7")).
  - vm_compute. discriminate.
  - reflexivity.
  - reflexivity.
  - reflexivity.
Defined.

(** ** Clicks that change nothing *)

(** Before the delay is used up, and while fewer than two pieces are
    pending, the second half of [eventPoll] leaves every piece alone. *)
Lemma resolvePending_before_delay g :
  (flippedCount g < maxFlipped ∨ flipTimer g < flipDelay)%Z →
  puzzlePiecesAll (resolvePending g) = puzzlePiecesAll g.
Proof.
  intros Hnot. unfold resolvePending.
  destruct (Z.geb_spec (flippedCount g) maxFlipped); [|done].
  destruct (Z.gtb_spec (flipTimer g + 1) flipDelay); [lia|done].
Qed.

Lemma clickLoop_pending btn n i g :
  (flippedCount g >= maxFlipped)%Z → clickLoop btn n i g = g.
Proof.
  intros Hge. revert i. induction n as [|n IH]; intros i; simpl; [done|].
  destruct (dstCoords g !! i) as [rect|]; [|done].
  destruct (puzzlePiecesAll g !! i) as [p|]; [|done].
  destruct (mouseWithinRectBound btn rect && _); [|apply IH].
  destruct (Z.ltb_spec (flippedCount g) maxFlipped); [lia|done].
Qed.

Lemma clickLoop_no_hit btn n i g :
  (∀ j rect p, dstCoords g !! j = Some rect → puzzlePiecesAll g !! j = Some p →
               mouseWithinRectBound btn rect = true → puzzlePiece.visState p ≠ HIDDEN) →
  clickLoop btn n i g = g.
Proof.
  intros Hno. revert i. induction n as [|n IH]; intros i; simpl; [done|].
  destruct (dstCoords g !! i) as [rect|] eqn:Hr; [|done].
  destruct (puzzlePiecesAll g !! i) as [p|] eqn:Hp; [|done].
  destruct (mouseWithinRectBound btn rect) eqn:Hin; simpl; [|apply IH].
  rewrite bool_decide_eq_false_2; [apply IH|]. by eapply Hno.
Qed.

Lemma reachable_oneFlipped : reachable puzzlePiecesTotal oneFlipped.
Proof. apply reach_event, reach_start. Qed.

Lemma reachable_twoFlipped : reachable puzzlePiecesTotal twoFlipped.
Proof. apply reach_event, reachable_oneFlipped. Qed.

(** C5.  In every state of play at most two pieces are [FLIPPED]. *)
Theorem at_most_two_flipped total g :
  reachable total g → countFlipped (puzzlePiecesAll g) ≤ 2.
Proof.
  intros [_ _ _ Hcnt Hmax _ _ _]%reachable_Inv. unfold maxFlipped in Hmax. lia.
Qed.

Lemma at_most_two_flipped_witness : countFlipped (puzzlePiecesAll twoFlipped) ≤ 2.
Proof. exact (at_most_two_flipped puzzlePiecesTotal twoFlipped reachable_twoFlipped). Defined.

(** C6.  In a state of play with two pieces flipped, the click handler
    changes nothing at all, whatever the click hits, a slot with a [HIDDEN]
    piece included; and while the delay still has a round to go, the whole
    call of [eventPoll] for that click leaves every [visState] as it was. *)
Theorem click_ignored_while_two_pending total g btn :
  reachable total g →
  countFlipped (puzzlePiecesAll g) = 2 →
  handleEvent total (SDL_MOUSEBUTTONDOWN btn) g = g
  ∧ ((flipTimer g < flipDelay)%Z →
     visStates (eventPoll total (SDL_MOUSEBUTTONDOWN btn) g) = visStates g).
Proof.
  intros [_ _ _ Hcnt Hmax _ _ _]%reachable_Inv Htwo.
  assert (flippedCount g >= maxFlipped)%Z as Hge by (unfold maxFlipped; lia).
  assert (handleEvent total (SDL_MOUSEBUTTONDOWN btn) g = g) as Hsame.
  { simpl. case_decide; [|done]. by apply clickLoop_pending. }
  split; [done|]. intros Hlt. unfold eventPoll, visStates. rewrite Hsame.
  by rewrite resolvePending_before_delay by auto.
Qed.

Lemma click_ignored_while_two_pending_witness :
  handleEvent puzzlePiecesTotal (clickAt 125 50) twoFlipped = twoFlipped
  ∧ ((flipTimer twoFlipped < flipDelay)%Z →
     visStates (eventPoll puzzlePiecesTotal (clickAt 125 50) twoFlipped)
     = visStates twoFlipped).
Proof.
  apply (click_ignored_while_two_pending puzzlePiecesTotal twoFlipped
           (SDL_MouseButtonEvent.mk SDL_BUTTON_LEFT 125 50) reachable_twoFlipped).
  vm_compute. reflexivity.
Defined.

(** C7.  In a state of play, a click into a slot whose piece is [SOLVED] or
    [FLIPPED] changes nothing: the click handler returns the state it was
    given.  Unless the comparison of two pending pieces is due in the same
    call, the whole call of [eventPoll] for that click leaves every
    [visState] as it was. *)
Theorem click_on_shown_piece_is_noop total g btn i rect p :
  reachable total g →
  dstCoords g !! i = Some rect →
  mouseWithinRectBound btn rect = true →
  puzzlePiecesAll g !! i = Some p →
  puzzlePiece.visState p = SOLVED ∨ puzzlePiece.visState p = FLIPPED →
  handleEvent total (SDL_MOUSEBUTTONDOWN btn) g = g
  ∧ ((flippedCount g < maxFlipped ∨ flipTimer g < flipDelay)%Z →
     visStates (eventPoll total (SDL_MOUSEBUTTONDOWN btn) g) = visStates g).
Proof.
  intros [_ Hdst _ _ _ _ _ _]%reachable_Inv Hrect Hin Hp Hshown.
  assert (handleEvent total (SDL_MOUSEBUTTONDOWN btn) g = g) as Hsame.
  { simpl. case_decide; [|done]. apply clickLoop_no_hit.
    intros j rj pj Hrj Hpj Hinj Hhid. rewrite Hdst in Hrect, Hrj.
    assert (j = i) as -> by by eapply dstLayout_disjoint.
    simplify_eq. destruct Hshown; congruence. }
  split; [done|]. intros Hnot. unfold eventPoll, visStates. rewrite Hsame.
  by rewrite resolvePending_before_delay.
Qed.

Lemma click_on_shown_piece_is_noop_witness :
  handleEvent puzzlePiecesTotal (clickAt 80 50) oneFlipped = oneFlipped
  ∧ ((flippedCount oneFlipped < maxFlipped ∨ flipTimer oneFlipped < flipDelay)%Z →
     visStates (eventPoll puzzlePiecesTotal (clickAt 80 50) oneFlipped)
     = visStates oneFlipped).
Proof.
  apply (click_on_shown_piece_is_noop puzzlePiecesTotal oneFlipped
           (SDL_MouseButtonEvent.mk SDL_BUTTON_LEFT 80 50) 0
           (SDL_Rect.mk 75 40 40 40)
           (puzzlePiece.mk (SDL_Rect.mk 0 0 40 40) FLIPPED "1234567891")
           reachable_oneFlipped).
  - vm_compute. reflexivity.
  - vm_compute. reflexivity.
  - vm_compute. reflexivity.
  - right. reflexivity.
Defined.

(** ** What [renderUpdate] draws *)

(** A [SOLVED] piece is not drawn like a [FLIPPED] one.  On the board of
    the program, while piece 0 is [FLIPPED], a frame draws its source
    rectangle and the outline into slot 0; once it is [SOLVED], a frame
    draws nothing at all into slot 0. *)
Lemma solved_piece_is_not_drawn :
  puzzlePiecesAll twoFlipped !! 0
    = Some (puzzlePiece.mk (SDL_Rect.mk 0 0 40 40) FLIPPED "1234567891")
  ∧ drawsAt (SDL_Rect.mk 75 40 40 40) (renderUpdate puzzlePiecesTotal twoFlipped)
    = [SDL_RenderCopy (puzzleTextures 0) (Some (SDL_Rect.mk 0 0 40 40))
                      (SDL_Rect.mk 75 40 40 40);
       SDL_RenderCopy flippedOutlineTex None (SDL_Rect.mk 75 40 40 40)]
  ∧ puzzlePiecesAll solvedPair !! 0
    = Some (puzzlePiece.mk (SDL_Rect.mk 0 0 40 40) SOLVED "1234567891")
  ∧ dstCoords solvedPair !! 0 = Some (SDL_Rect.mk 75 40 40 40)
  ∧ drawsAt (SDL_Rect.mk 75 40 40 40) (renderUpdate puzzlePiecesTotal solvedPair) = [].
Proof. vm_compute. done. Qed.

Lemma renderLoop_concat n rectI g :
  rectI + n ≤ length (puzzlePiecesAll g) →
  rectI + n ≤ length (dstCoords g) →
  renderLoop n rectI g =
    concat (zip_with renderPiece (take n (drop rectI (puzzlePiecesAll g)))
                                 (take n (drop rectI (dstCoords g)))).
Proof.
  revert rectI. induction n as [|n IH]; intros rectI Hp Hd; simpl; [done|].
  destruct (lookup_lt_is_Some_2 (puzzlePiecesAll g) rectI ltac:(lia)) as [p Hlp].
  destruct (lookup_lt_is_Some_2 (dstCoords g) rectI ltac:(lia)) as [d Hld].
  rewrite Hlp, Hld, (drop_S _ _ _ Hlp), (drop_S _ _ _ Hld). simpl.
  by rewrite IH by lia.
Qed.

(** C8, amended.  A frame is the clear call, the draw calls of the slots
    in slot order, and the present call.  For a slot the frame draws the
    hidden texture when its piece is [HIDDEN], the piece's source rectangle
    of the puzzle texture and then the outline when it is [FLIPPED], and
    nothing when it is [SOLVED]. *)
Theorem render_draws_nothing_for_solved total g :
  length (puzzlePiecesAll g) = total →
  length (dstCoords g) = total →
  renderUpdate total g =
    SDL_RenderClear
    :: concat (zip_with renderPiece (puzzlePiecesAll g) (dstCoords g))
    ++ [SDL_RenderPresent]
  ∧ ∀ p dst,
      renderPiece p dst =
        match puzzlePiece.visState p with
        | HIDDEN => [SDL_RenderCopy pieceHiddenTex None dst]
        | FLIPPED => [SDL_RenderCopy (puzzleTextures 0) (Some (puzzlePiece.srcRect p)) dst;
                      SDL_RenderCopy flippedOutlineTex None dst]
        | SOLVED => []
        end.
Proof.
  intros Hp Hd. split.
  - unfold renderUpdate. rewrite renderLoop_concat by lia. simpl.
    rewrite !drop_0. by rewrite !take_ge by lia.
  - intros p dst. unfold renderPiece. by destruct (puzzlePiece.visState p).
Qed.

Lemma render_draws_nothing_for_solved_witness :
  renderUpdate 2 (resolvePending pendingPair) =
    SDL_RenderClear
    :: concat (zip_with renderPiece (puzzlePiecesAll (resolvePending pendingPair))
                                    (dstCoords (resolvePending pendingPair)))
    ++ [SDL_RenderPresent]
  ∧ ∀ p dst,
      renderPiece p dst =
        match puzzlePiece.visState p with
        | HIDDEN => [SDL_RenderCopy pieceHiddenTex None dst]
        | FLIPPED => [SDL_RenderCopy (puzzleTextures 0) (Some (puzzlePiece.srcRect p)) dst;
                      SDL_RenderCopy flippedOutlineTex None dst]
        | SOLVED => []
        end.
Proof.
  apply (render_draws_nothing_for_solved 2 (resolvePending pendingPair)); reflexivity.
Defined.

(** ** Identities after setup *)

Lemma countId_Permutation i v v' : v ≡ₚ v' → countId i v = countId i v'.
Proof. intros Hp. unfold countId. by rewrite Hp. Qed.

Lemma distinctIds_Permutation v v' : v ≡ₚ v' → distinctIds v = distinctIds v'.
Proof.
  intros Hp. unfold distinctIds. apply Permutation_length.
  apply NoDup_Permutation; [apply NoDup_remove_dups..|].
  intros i. rewrite !elem_of_remove_dups. unfold ids. by rewrite Hp.
Qed.

Lemma countId_app i v1 v2 : countId i (v1 ++ v2) = countId i v1 + countId i v2.
Proof. unfold countId. by rewrite filter_app, length_app. Qed.

Lemma countId_cons i p v :
  countId i (p :: v) = (if decide (puzzlePiece.id p = i) then 1 else 0) + countId i v.
Proof. unfold countId. rewrite filter_cons. by case_decide. Qed.

Lemma countId_not_elem_of i v : i ∉ ids v → countId i v = 0.
Proof.
  induction v as [|p v IH]; [done|]. unfold ids. rewrite fmap_cons, not_elem_of_cons.
  intros [Hne Hni]. rewrite countId_cons, decide_False, IH by done. done.
Qed.

Lemma countId_NoDup i v : NoDup (ids v) → i ∈ ids v → countId i v = 1.
Proof.
  induction v as [|p v IH]; [by intros _ ?%elem_of_nil|].
  unfold ids. rewrite fmap_cons, NoDup_cons, elem_of_cons. intros [Hni Hnd] Hin.
  rewrite countId_cons. case_decide as Hp.
  - subst i. by rewrite countId_not_elem_of.
  - destruct Hin as [->|Hin]; [done|]. by rewrite IH.
Qed.

Lemma beforeShuffle_even total mt :
  Nat.even total = true → beforeShuffle total mt = firstHalf total mt ++ firstHalf total mt.
Proof.
  intros Hev. apply Nat.even_spec in Hev as [h ->].
  assert (length (afterSrcLoop (2 * h) mt) = 2 * h) as Hlen.
  { unfold afterSrcLoop. by rewrite srcLoop_length, length_replicate. }
  unfold beforeShuffle, firstHalf.
  replace ((2 * h) `div` 2) with h by (apply Nat.div_unique_exact; lia).
  rewrite copyFirstHalf_spec by lia.
  by rewrite drop_ge, app_nil_r by lia.
Qed.

(** With an even number of pieces every identity is on twice as many
    pieces of the board as of the first half, whatever the two random
    sources return. *)
Lemma setup_doubles_identities total mt engine i :
  Nat.even total = true →
  countId i (puzzlePiecesAll (startGame total mt engine)) = 2 * countId i (firstHalf total mt).
Proof.
  intros Hev. rewrite startGame_eq. simpl.
  rewrite (countId_Permutation _ _ _ (shuffle_Permutation _ _)).
  rewrite beforeShuffle_even, countId_app by done. lia.
Qed.

(** When the identities drawn for the first half are pairwise different,
    the board has one identity per pair and every identity on exactly two
    pieces. *)
Lemma setup_pairs_when_draws_differ total mt engine :
  Nat.even total = true →
  NoDup (ids (firstHalf total mt)) →
  distinctIds (puzzlePiecesAll (startGame total mt engine)) = total `div` 2
  ∧ ∀ i, i ∈ ids (puzzlePiecesAll (startGame total mt engine)) →
         countId i (puzzlePiecesAll (startGame total mt engine)) = 2.
Proof.
  intros Hev Hnd.
  assert (∀ i, i ∈ ids (puzzlePiecesAll (startGame total mt engine))
               ↔ i ∈ ids (firstHalf total mt)) as Hin.
  { intros i. rewrite startGame_eq. simpl. unfold ids.
    rewrite shuffle_Permutation, beforeShuffle_even, fmap_app, elem_of_app by done. tauto. }
  split.
  - unfold distinctIds.
    rewrite (Permutation_length (l' := ids (firstHalf total mt))).
    + unfold ids, firstHalf. rewrite length_fmap, length_take.
      unfold afterSrcLoop. rewrite srcLoop_length, length_replicate.
      pose proof (Nat.Div0.div_le_upper_bound total 2 total). lia.
    + apply NoDup_Permutation; [apply NoDup_remove_dups|done|].
      intros i. by rewrite elem_of_remove_dups.
  - intros i Hi%Hin. rewrite setup_doubles_identities by done.
    by rewrite countId_NoDup.
Qed.

(** C2.  Setup does not give every pair an identity of its own when two
    pieces draw the same ten digits.  For the stream [collidingDraws],
    whatever the shuffle does, the board of 100 pieces carries 49 identities
    instead of 50, and the identity of pieces 0 and 1 is on four pieces
    instead of two. *)
Theorem setup_identity_collision engine :
  distinctIds (puzzlePiecesAll (startGame puzzlePiecesTotal collidingDraws engine)) = 49
  ∧ countId "1211111111"
            (puzzlePiecesAll (startGame puzzlePiecesTotal collidingDraws engine)) = 4.
Proof.
  rewrite startGame_eq. simpl.
  rewrite (distinctIds_Permutation _ _ (shuffle_Permutation _ _)).
  rewrite (countId_Permutation _ _ _ (shuffle_Permutation _ _)).
  split; vm_compute; reflexivity.
Qed.

(** ** The model stays inside what the program can do *)



(** Every slot of the program's board lies inside the 600 by 600 window. *)
Lemma dstCoords_in_window :
  Forall (λ r, (0 ≤ SDL_Rect.x r ∧ SDL_Rect.x r + SDL_Rect.w r ≤ 600
                ∧ 0 ≤ SDL_Rect.y r ∧ SDL_Rect.y r + SDL_Rect.h r ≤ 600)%Z)
         (dstLayout puzzlePiecesTotal).
Proof. apply (bool_decide_unpack _). vm_compute. exact I. Qed.

(** Every draw of [dist] is a digit from 1 to 9. *)
Lemma dist_range mt k : 1 ≤ dist mt k ≤ 9.
Proof. unfold dist. pose proof (Nat.mod_upper_bound (mt k) 9). lia. Qed.

Lemma clickLoop_programState btn n i g :
  programState (clickLoop btn n i g) = programState g.
Proof.
  destruct (clickLoop_cases btn n i g) as [->|(j & p & _ & _ & _ & ->)]; done.
Qed.



(** From a state of play with two pending pieces the comparison does come:
    after as many calls as the delay still has rounds, and one more, no
    piece is pending any longer. *)
Lemma delay_runs_out total n g :
  Inv total g →
  (flippedCount g = 2)%Z →
  (flipDelay - flipTimer g = Z.of_nat n)%Z →
  flippedCount (Nat.iter (S n) resolvePending g) = 0%Z.
Proof.
  revert g. induction n as [|n IH]; intros g HI Hfc Htm.
  - simpl. unfold resolvePending.
    destruct (Z.geb_spec (flippedCount g) maxFlipped); [|unfold maxFlipped in *; lia].
    destruct (Z.gtb_spec (flipTimer g + 1) flipDelay); [|lia].
    destruct HI as [_ _ _ _ _ _ H1 H2].
    pose proof (H1 ltac:(lia)) as (p0 & Hp0 & _)%fmap_Some.
    apply H2 in Hfc as [(p1 & Hp1 & _)%fmap_Some _].
    rewrite Hp0, Hp1. case_decide; [|done]. by destruct (puzzleSolved _).
  - rewrite Nat.iter_succ_r. apply IH.
    + by apply Inv_resolvePending.
    + unfold resolvePending.
      destruct (Z.geb_spec (flippedCount g) maxFlipped); [|done].
      destruct (Z.gtb_spec (flipTimer g + 1) flipDelay); [lia|done].
    + unfold resolvePending.
      destruct (Z.geb_spec (flippedCount g) maxFlipped); [|unfold maxFlipped in *; lia].
      destruct (Z.gtb_spec (flipTimer g + 1) flipDelay); [lia|simpl; lia].
Qed.

(** ** More on clicks *)

(** The click loop walks past every slot that does not hold the point or
    whose piece is not [HIDDEN], and stops at the first slot that does. *)
Lemma clickLoop_first_hit btn n k g i rect p :
  k ≤ i < k + n →
  i < length (dstCoords g) → i < length (puzzlePiecesAll g) →
  (∀ j rj pj, k ≤ j < i → dstCoords g !! j = Some rj → puzzlePiecesAll g !! j = Some pj →
              mouseWithinRectBound btn rj && bool_decide (puzzlePiece.visState pj = HIDDEN)
              = false) →
  dstCoords g !! i = Some rect → puzzlePiecesAll g !! i = Some p →
  mouseWithinRectBound btn rect = true → puzzlePiece.visState p = HIDDEN →
  clickLoop btn n k g = if (flippedCount g <? maxFlipped)%Z then flipPiece i g else g.
Proof.
  revert k. induction n as [|n IH]; intros k Hk Hld Hlp Hskip Hr Hp Hin Hhid; [lia|].
  simpl. destruct (decide (k = i)) as [->|Hne].
  - by rewrite Hr, Hp, Hin, bool_decide_eq_true_2.
  - destruct (lookup_lt_is_Some_2 (dstCoords g) k ltac:(lia)) as [rk Hrk].
    destruct (lookup_lt_is_Some_2 (puzzlePiecesAll g) k ltac:(lia)) as [pk Hpk].
    rewrite Hrk, Hpk, (Hskip k rk pk) by (done || lia).
    apply IH; try done; [lia|]. intros j rj pj Hj. apply Hskip. lia.
Qed.

(** In a state of play a left click into the slot of a [HIDDEN] piece
    reaches the body of the click loop for exactly that slot. *)
Lemma handleEvent_hit total g btn i rect p :
  reachable total g →
  SDL_MouseButtonEvent.button btn = SDL_BUTTON_LEFT →
  dstCoords g !! i = Some rect →
  mouseWithinRectBound btn rect = true →
  puzzlePiecesAll g !! i = Some p →
  puzzlePiece.visState p = HIDDEN →
  (flippedCount g < maxFlipped)%Z →
  handleEvent total (SDL_MOUSEBUTTONDOWN btn) g = flipPiece i g.
Proof.
  intros [Hlen Hdst _ _ _ _ _ _]%reachable_Inv Hleft Hr Hin Hp Hhid Hlt.
  simpl. rewrite decide_True by done.
  pose proof (lookup_lt_Some _ _ _ Hr). pose proof (lookup_lt_Some _ _ _ Hp).
  rewrite (clickLoop_first_hit btn total 0 g i rect p); try done; [|lia|].
  - by destruct (Z.ltb_spec (flippedCount g) maxFlipped); [|lia].
  - intros j rj pj Hj Hrj Hpj.
    destruct (mouseWithinRectBound btn rj) eqn:Hinj; [|done].
    rewrite Hdst in Hr, Hrj.
    pose proof (dstLayout_disjoint _ _ _ _ _ _ Hrj Hr Hinj Hin). lia.
Qed.

(** X1.  In a state of play with fewer than two pieces flipped, a left
    click into the slot of a [HIDDEN] piece flips exactly that piece: it
    becomes [FLIPPED], its position is recorded as the next pending index,
    [flippedCount] grows by one, and no other piece, no slot, the timer and
    the program state stay as they were. *)
Theorem click_on_hidden_flips total g btn i rect p :
  reachable total g →
  SDL_MouseButtonEvent.button btn = SDL_BUTTON_LEFT →
  dstCoords g !! i = Some rect →
  mouseWithinRectBound btn rect = true →
  puzzlePiecesAll g !! i = Some p →
  puzzlePiece.visState p = HIDDEN →
  (flippedCount g < maxFlipped)%Z →
  let g' := handleEvent total (SDL_MOUSEBUTTONDOWN btn) g in
  puzzlePiecesAll g' = <[i := setVisState FLIPPED p]> (puzzlePiecesAll g)
  ∧ flippedCount g' = (flippedCount g + 1)%Z
  ∧ flippedIndices g' !!! Z.to_nat (flippedCount g) = i
  ∧ countFlipped (puzzlePiecesAll g') = S (countFlipped (puzzlePiecesAll g))
  ∧ dstCoords g' = dstCoords g ∧ flipTimer g' = flipTimer g
  ∧ programState g' = programState g.
Proof.
  intros Hreach Hleft Hr Hin Hp Hhid Hlt g'. subst g'.
  pose proof (reachable_Inv _ _ Hreach) as [Hlen Hdst Hil Hcnt Hmax Htm _ _].
  rewrite (handleEvent_hit total g btn i rect p) by done.
  pose proof (countFlipped_alter FLIPPED i _ p Hp) as Hc.
  rewrite Hhid, decide_False, decide_True in Hc by done.
  unfold flipPiece, maxFlipped in *. simpl. split_and!; try done.
  - apply list_eq. intros j. destruct (decide (j = i)) as [->|Hne].
    + rewrite list_lookup_alter_eq, Hp, list_lookup_insert_eq; [done|].
      by eapply lookup_lt_Some.
    + by rewrite list_lookup_alter_ne, list_lookup_insert_ne.
  - assert (flippedCount g = 0 ∨ flippedCount g = 1)%Z as [Hz|Hz] by lia; rewrite Hz; simpl.
    + by rewrite list_lookup_total_insert_eq by lia.
    + change (Z.to_nat 1) with 1. by rewrite list_lookup_total_insert_eq by lia.
  - lia.
Qed.

Lemma click_on_hidden_flips_witness :
  puzzlePiecesAll (handleEvent puzzlePiecesTotal (clickAt 125 50) oneFlipped)
  = <[1 := setVisState FLIPPED
             (puzzlePiece.mk (SDL_Rect.mk 40 0 40 40) HIDDEN "2345678912")]>
      (puzzlePiecesAll oneFlipped)
  ∧ flippedCount (handleEvent puzzlePiecesTotal (clickAt 125 50) oneFlipped)
    = (flippedCount oneFlipped + 1)%Z
  ∧ flippedIndices (handleEvent puzzlePiecesTotal (clickAt 125 50) oneFlipped)
      !!! Z.to_nat (flippedCount oneFlipped) = 1
  ∧ countFlipped (puzzlePiecesAll (handleEvent puzzlePiecesTotal (clickAt 125 50) oneFlipped))
    = S (countFlipped (puzzlePiecesAll oneFlipped))
  ∧ dstCoords (handleEvent puzzlePiecesTotal (clickAt 125 50) oneFlipped)
    = dstCoords oneFlipped
  ∧ flipTimer (handleEvent puzzlePiecesTotal (clickAt 125 50) oneFlipped)
    = flipTimer oneFlipped
  ∧ programState (handleEvent puzzlePiecesTotal (clickAt 125 50) oneFlipped)
    = programState oneFlipped.
Proof.
  apply (click_on_hidden_flips puzzlePiecesTotal oneFlipped
           (SDL_MouseButtonEvent.mk SDL_BUTTON_LEFT 125 50) 1
           (SDL_Rect.mk 120 40 40 40)
           (puzzlePiece.mk (SDL_Rect.mk 40 0 40 40) HIDDEN "2345678912")
           reachable_oneFlipped).
  - reflexivity.
  - vm_compute. reflexivity.
  - vm_compute. reflexivity.
  - vm_compute. reflexivity.
  - reflexivity.
  - vm_compute. reflexivity.
Defined.

(** A point left of the board, above it, or in one of the gaps between the
    columns or rows of the grid lies in no slot. *)
Lemma slotRect_misses m j btn :
  (1 ≤ m)%Z →
  (SDL_MouseButtonEvent.x btn < xBoardOffset
   ∨ SDL_MouseButtonEvent.y btn < yBoardOffset
   ∨ puzzlePieceSize < (SDL_MouseButtonEvent.x btn - xBoardOffset) `mod` 45
   ∨ puzzlePieceSize < (SDL_MouseButtonEvent.y btn - yBoardOffset) `mod` 45)%Z →
  mouseWithinRectBound btn (slotRect m j) = false.
Proof.
  intros Hm Hout. apply not_true_is_false. intros [Hx Hy]%mouseWithinRectBound_true.
  unfold slotRect, xBoardOffset, yBoardOffset, puzzlePieceSize in *. simpl in *.
  pose proof (Z.mod_pos_bound (Z.of_nat j) m ltac:(lia)) as Hc.
  pose proof (Z.div_pos (Z.of_nat j) m ltac:(lia) ltac:(lia)) as Hd.
  set (c := (Z.of_nat j `mod` m)%Z) in *. set (d := (Z.of_nat j `div` m)%Z) in *.
  assert ((SDL_MouseButtonEvent.x btn - 75) `mod` 45
          = SDL_MouseButtonEvent.x btn - 75 - 45 * c)%Z as Hxm.
  { symmetry. apply (Z.mod_unique_pos _ _ c); lia. }
  assert ((SDL_MouseButtonEvent.y btn - 40) `mod` 45
          = SDL_MouseButtonEvent.y btn - 40 - 45 * d)%Z as Hym.
  { symmetry. apply (Z.mod_unique_pos _ _ d); lia. }
  lia.
Qed.

(** X2.  In a state of play, a click left of the board, above it, or into
    a gap between two columns or two rows of slots changes nothing. *)
Theorem click_outside_slots_is_noop total g btn :
  reachable total g →
  (SDL_MouseButtonEvent.x btn < xBoardOffset
   ∨ SDL_MouseButtonEvent.y btn < yBoardOffset
   ∨ puzzlePieceSize < (SDL_MouseButtonEvent.x btn - xBoardOffset) `mod` 45
   ∨ puzzlePieceSize < (SDL_MouseButtonEvent.y btn - yBoardOffset) `mod` 45)%Z →
  handleEvent total (SDL_MOUSEBUTTONDOWN btn) g = g.
Proof.
  intros [_ Hdst _ _ _ _ _ _]%reachable_Inv Hout. simpl.
  case_decide; [|done]. apply clickLoop_no_hit.
  intros j rj pj Hrj _ Hin _. rewrite Hdst in Hrj.
  pose proof (lookup_lt_Some _ _ _ Hrj) as Hj. rewrite dstLayout_length in Hj.
  rewrite dstLayout_lookup in Hrj by done. simplify_eq.
  rewrite slotRect_misses in Hin; [done| |done].
  pose proof (proj2 (Z.sqrt_pos (Z.of_nat total))). lia.
Qed.

Lemma click_outside_slots_is_noop_witness :
  handleEvent puzzlePiecesTotal (clickAt 117 50) oneFlipped = oneFlipped.
Proof.
  apply (click_outside_slots_is_noop puzzlePiecesTotal oneFlipped
           (SDL_MouseButtonEvent.mk SDL_BUTTON_LEFT 117 50) reachable_oneFlipped).
  right. right. left. vm_compute. reflexivity.
Defined.

(** X3.  Setup lays the slots out row by row: on a board of [total] pieces
    slot [j] is the square of 40 pixels whose corner is 75 + 45 (j mod m)
    pixels from the left and 40 + 45 (j div m) pixels from the top, where
    [m] is the integer square root of [total]; there are [total] slots and
    no more. *)
Theorem setup_slot_grid total mt engine j :
  dstCoords (startGame total mt engine) !! j =
    if decide (j < total) then
      Some (SDL_Rect.mk (45 * (Z.of_nat j `mod` Z.sqrt (Z.of_nat total)) + 75)
                        (45 * (Z.of_nat j `div` Z.sqrt (Z.of_nat total)) + 40)
                        40 40)
    else None.
Proof.
  rewrite startGame_eq. simpl. case_decide as Hj.
  - by rewrite dstLayout_lookup.
  - apply lookup_ge_None. rewrite dstLayout_length. lia.
Qed.

(** ** The pieces that setup makes *)

Lemma idLoop_counter mt n k str : (idLoop mt n k str).2 = k + n.
Proof.
  revert k str. induction n as [|n IH]; intros k str; simpl; [lia|]. rewrite IH. lia.
Qed.

Lemma srcRowLen_columns total : total ≠ 0 → (1 ≤ srcRowLen total + 1)%Z.
Proof. intros Hne. unfold srcRowLen. rewrite decide_False by done. lia. Qed.

(** The loop over the first half writes cell [j] and identity [idOf mt j]
    into every piece it visits, keeps the [visState], and visits nothing
    else. *)
Lemma srcLoop_lookup mt m n rectI k v j :
  (1 ≤ m)%Z → k = 10 * rectI →
  (srcLoop mt (m - 1) n rectI k (gridCursor m 40 (Z.of_nat rectI)) v).1 !! j =
    if decide (rectI ≤ j < rectI + n)
    then (λ p, puzzlePiece.mk (srcCell m j) (puzzlePiece.visState p) (idOf mt j)) <$> v !! j
    else v !! j.
Proof.
  intros Hm. revert rectI k v. induction n as [|n IH]; intros rectI k v ->.
  { simpl. by rewrite decide_False by lia. }
  change (srcLoop mt (m - 1) (S n) rectI (10 * rectI) (gridCursor m 40 (Z.of_nat rectI)) v)
    with (let '(str, k') := idLoop mt 10 (10 * rectI) "" in
          srcLoop mt (m - 1) n (S rectI) k'
            (advance (m - 1) 40 (gridCursor m 40 (Z.of_nat rectI)))
            (alter (λ p, puzzlePiece.mk
                           (SDL_Rect.mk (40 * (Z.of_nat rectI `mod` m))
                                        (40 * (Z.of_nat rectI `div` m)) 40 40)
                           (puzzlePiece.visState p) str) rectI v)).
  pose proof (idLoop_counter mt 10 (10 * rectI) "") as Hk.
  destruct (idLoop mt 10 (10 * rectI) "") as [str k'] eqn:Hid.
  cbn [snd] in Hk. subst k'.
  rewrite advance_gridCursor by lia.
  replace (Z.of_nat rectI + 1)%Z with (Z.of_nat (S rectI)) by lia.
  rewrite IH by lia. destruct (decide (j = rectI)) as [->|Hne].
  - rewrite decide_False, decide_True by lia.
    rewrite list_lookup_alter_eq. unfold idOf, srcCell. by rewrite Hid.
  - rewrite list_lookup_alter_ne by done.
    repeat case_decide; (done || exfalso; lia).
Qed.

Lemma afterSrcLoop_lookup total mt j :
  afterSrcLoop total mt !! j =
    if decide (j < total `div` 2) then Some (setupPiece total mt j)
    else if decide (j < total) then Some defaultPiece
    else None.
Proof.
  unfold afterSrcLoop. destruct (decide (total = 0)) as [->|Hne].
  { done. }
  replace (srcRowLen total) with (srcRowLen total + 1 - 1)%Z by lia.
  change (mkCursor 0 0 0) with (gridCursor (srcRowLen total + 1) 40 (Z.of_nat 0)).
  rewrite (srcLoop_lookup mt (srcRowLen total + 1) (total `div` 2) 0 0)
    by (done || by apply srcRowLen_columns).
  pose proof (Nat.Div0.div_le_upper_bound total 2 total ltac:(lia)).
  case_decide as Hj.
  - rewrite decide_True by lia. by rewrite lookup_replicate_2 by lia.
  - rewrite decide_False by lia. case_decide.
    + by rewrite lookup_replicate_2.
    + apply lookup_replicate_None. lia.
Qed.

Lemma beforeShuffle_lookup total mt j :
  beforeShuffle total mt !! j =
    if decide (j < 2 * (total `div` 2)) then Some (setupPiece total mt (j `mod` (total `div` 2)))
    else if decide (j < total) then Some defaultPiece
    else None.
Proof.
  pose proof (Nat.Div0.mul_div_le total 2) as Hh.
  unfold beforeShuffle, copyFirstHalf.
  rewrite std_copy_lookup
    by (unfold afterSrcLoop; rewrite ?srcLoop_length, ?length_replicate; lia).
  rewrite !afterSrcLoop_lookup. set (h := total `div` 2) in *.
  repeat case_decide; try (exfalso; lia); try done.
  - do 2 f_equal. apply (Nat.mod_unique _ _ 1); lia.
  - by rewrite Nat.mod_small.
Qed.

Lemma srcCell_inj m r r' : (1 ≤ m)%Z → srcCell m r = srcCell m r' → r = r'.
Proof.
  intros Hm Heq. unfold srcCell in Heq. injection Heq as Hx Hy.
  pose proof (Z.div_mod (Z.of_nat r) m ltac:(lia)).
  pose proof (Z.div_mod (Z.of_nat r') m ltac:(lia)).
  assert (Z.of_nat r `mod` m = Z.of_nat r' `mod` m)%Z by lia.
  assert (Z.of_nat r `div` m = Z.of_nat r' `div` m)%Z by lia.
  apply Nat2Z.inj. congruence.
Qed.

(** X4.  Before the shuffle, piece [r] of the first half and piece
    [r + total / 2] are the same piece twice: face down, showing cell
    (r mod m, r div m) of the puzzle image, which is cut into cells of 40
    pixels in rows of [m = srcRowLen total + 1] cells, and carrying the
    identity made of the draws [10 r] to [10 r + 9]. *)
Theorem setup_makes_pairs total mt r :
  r < total `div` 2 →
  beforeShuffle total mt !! r = Some (setupPiece total mt r)
  ∧ beforeShuffle total mt !! (total `div` 2 + r) = Some (setupPiece total mt r).
Proof.
  intros Hr. rewrite !beforeShuffle_lookup, !decide_True by lia. split.
  - by rewrite Nat.mod_small.
  - do 2 f_equal. symmetry. apply (Nat.mod_unique _ _ 1); lia.
Qed.

Lemma setup_makes_pairs_witness :
  beforeShuffle puzzlePiecesTotal (λ k, k) !! 7
  = Some (setupPiece puzzlePiecesTotal (λ k, k) 7)
  ∧ beforeShuffle puzzlePiecesTotal (λ k, k) !! (puzzlePiecesTotal `div` 2 + 7)
    = Some (setupPiece puzzlePiecesTotal (λ k, k) 7).
Proof.
  apply (setup_makes_pairs puzzlePiecesTotal (λ k, k) 7). vm_compute. lia.
Defined.

(** X5.  On the board that setup hands to play, two pieces that show the
    same cell of the puzzle image are equal pieces; so pieces with the same
    picture always carry the same identity, whatever was drawn. *)
Theorem same_picture_same_identity total mt engine p q :
  p ∈ puzzlePiecesAll (startGame total mt engine) →
  q ∈ puzzlePiecesAll (startGame total mt engine) →
  puzzlePiece.srcRect p = puzzlePiece.srcRect q →
  p = q ∧ puzzlePiece.id p = puzzlePiece.id q.
Proof.
  rewrite startGame_eq. simpl. rewrite !shuffle_Permutation.
  assert (∀ x, x ∈ beforeShuffle total mt →
               x = defaultPiece ∨ ∃ r, x = setupPiece total mt r) as Hshape.
  { intros x [j Hj]%list_elem_of_lookup. rewrite beforeShuffle_lookup in Hj.
    repeat case_decide; simplify_eq; eauto. }
  intros Hp Hq Hrect.
  assert (total ≠ 0) as Hne.
  { intros ->. by apply elem_of_nil in Hp. }
  assert (p = q) as ->; [|done].
  destruct (Hshape p Hp) as [->|[r ->]], (Hshape q Hq) as [->|[r' ->]];
    try done; try (by vm_compute in Hrect).
  apply srcCell_inj in Hrect as ->; [done|]. by apply srcRowLen_columns.
Qed.

Lemma same_picture_same_identity_witness :
  puzzlePiece.mk (SDL_Rect.mk 0 0 40 40) HIDDEN "1234567891"
  = puzzlePiece.mk (SDL_Rect.mk 0 0 40 40) HIDDEN "1234567891"
  ∧ "1234567891" = "1234567891".
Proof.
  apply (same_picture_same_identity puzzlePiecesTotal (λ k, k) (λ k, k)
           (puzzlePiece.mk (SDL_Rect.mk 0 0 40 40) HIDDEN "1234567891")
           (puzzlePiece.mk (SDL_Rect.mk 0 0 40 40) HIDDEN "1234567891")).
  - apply list_elem_of_lookup. exists 0. vm_compute. reflexivity.
  - apply list_elem_of_lookup. exists 50. vm_compute. reflexivity.
  - reflexivity.
Defined.

(** ** Identities and draws *)

Lemma string_app_cons c (s1 s2 : string) : String c s1 +:+ s2 = String c (s1 +:+ s2).
Proof. reflexivity. Qed.

Lemma string_app_nil_r (s : string) : s +:+ "" = s.
Proof. induction s as [|c s IH]; [done|]. by rewrite string_app_cons, IH. Qed.

Lemma string_app_assoc (s1 s2 s3 : string) : (s1 +:+ s2) +:+ s3 = s1 +:+ (s2 +:+ s3).
Proof. induction s1 as [|c s1 IH]; [done|]. by rewrite !string_app_cons, IH. Qed.

Lemma to_string_digit d : 1 ≤ d ≤ 9 → ∃ c, to_string d = String c "".
Proof.
  intros Hd.
  do 10 (destruct d as [|d]; [first [exfalso; lia | by eexists]|]).
  exfalso. lia.
Qed.

Lemma idLoop_digits mt n k str :
  (idLoop mt n k str).1 = str +:+ digitsString (dist mt <$> seq k n).
Proof.
  revert k str. induction n as [|n IH]; intros k str.
  - simpl. by rewrite string_app_nil_r.
  - change (idLoop mt (S n) k str) with (idLoop mt n (S k) (str +:+ to_string (dist mt k))).
    rewrite IH, string_app_assoc. done.
Qed.

Lemma idOf_digits mt r : idOf mt r = digitsString (dist mt <$> seq (10 * r) 10).
Proof. unfold idOf. by rewrite idLoop_digits. Qed.

Lemma digitsString_cons d draws :
  1 ≤ d ≤ 9 → ∃ c, to_string d = String c "" ∧
                   digitsString (d :: draws) = String c (digitsString draws).
Proof.
  intros [c Hc]%to_string_digit. exists c. split; [done|].
  change (digitsString (d :: draws)) with (to_string d +:+ digitsString draws).
  by rewrite Hc.
Qed.

Lemma digitsString_length draws :
  Forall (λ d, 1 ≤ d ≤ 9) draws → String.length (digitsString draws) = length draws.
Proof.
  induction 1 as [|d draws Hd _ IH]; [done|].
  destruct (digitsString_cons d draws Hd) as (c & _ & ->). simpl. by rewrite IH.
Qed.

Lemma digitsString_inj draws draws' :
  Forall (λ d, 1 ≤ d ≤ 9) draws → Forall (λ d, 1 ≤ d ≤ 9) draws' →
  length draws = length draws' →
  digitsString draws = digitsString draws' → draws = draws'.
Proof.
  intros Hl. revert draws'. induction Hl as [|d draws Hd _ IH]; intros draws' Hl' Hlen Heq.
  { by destruct draws'. }
  destruct Hl' as [|d' draws' Hd' Hl']; [done|].
  destruct (digitsString_cons d draws Hd) as (c & Hc & Hs).
  destruct (digitsString_cons d' draws' Hd') as (c' & Hc' & Hs').
  rewrite Hs, Hs' in Heq. injection Heq as -> Heq.
  f_equal.
  - apply (inj pretty). unfold to_string in *. congruence.
  - apply IH; [done|simpl in Hlen; lia|done].
Qed.

Lemma draws_are_digits mt k n : Forall (λ d, 1 ≤ d ≤ 9) (dist mt <$> seq k n).
Proof. apply Forall_fmap, Forall_forall. intros i _. apply dist_range. Qed.

(** X6.  An identity is a string of exactly ten characters, and two pieces
    of the first half get the same identity exactly when their ten draws
    agree one by one. *)
Theorem identity_equal_iff_draws_equal mt r r' :
  String.length (idOf mt r) = 10
  ∧ (idOf mt r = idOf mt r' ↔
     ∀ i, i < 10 → dist mt (10 * r + i) = dist mt (10 * r' + i)).
Proof.
  rewrite !idOf_digits. split.
  { by rewrite digitsString_length, length_fmap, length_seq by apply draws_are_digits. }
  split.
  - intros Heq%digitsString_inj; try apply draws_are_digits;
      [|by rewrite !length_fmap, !length_seq].
    intros i Hi. apply (f_equal (λ l : list nat, l !! i)) in Heq.
    rewrite !list_lookup_fmap, !lookup_seq_lt in Heq by done.
    exact (f_equal (default 0) Heq).
  - intros Heq. f_equal. apply list_eq. intros i.
    rewrite !list_lookup_fmap. destruct (decide (i < 10)) as [Hi|Hi].
    + rewrite !lookup_seq_lt by done. cbn [fmap option_fmap option_map]. by rewrite Heq.
    + by rewrite !lookup_seq_ge by lia.
Qed.

(** ** What play changes and what it keeps *)

Lemma pictures_alter st i v : pictures (alter (setVisState st) i v) = pictures v.
Proof.
  unfold pictures. apply list_eq. intros j. rewrite !list_lookup_fmap.
  destruct (decide (j = i)) as [->|Hne].
  - rewrite list_lookup_alter_eq. by destruct (v !! i).
  - by rewrite list_lookup_alter_ne.
Qed.

Lemma handleEvent_frame total ev g :
  pictures (puzzlePiecesAll (handleEvent total ev g)) = pictures (puzzlePiecesAll g)
  ∧ dstCoords (handleEvent total ev g) = dstCoords g.
Proof.
  destruct ev as [|btn|]; simpl; [done| |done]. case_decide; [|done].
  destruct (clickLoop_cases btn total 0 g) as [->|(j & p & _ & _ & _ & ->)]; [done|].
  simpl. by rewrite pictures_alter.
Qed.

Lemma resolvePending_frame g :
  pictures (puzzlePiecesAll (resolvePending g)) = pictures (puzzlePiecesAll g)
  ∧ dstCoords (resolvePending g) = dstCoords g.
Proof.
  unfold resolvePending.
  destruct (_ >=? _)%Z; [|done]. destruct (_ >? _)%Z; [|done].
  destruct (puzzlePiecesAll g !! _); [|done]. destruct (puzzlePiecesAll g !! _); [|done].
  case_decide; [destruct (puzzleSolved _)|]; simpl; by rewrite !pictures_alter.
Qed.

(** X7.  A call of [eventPoll] changes no source rectangle, no identity and
    no slot, for any event and in any state: play only ever writes the
    [visState] of pieces, the two counters, the pending indices and the
    program state. *)
Theorem play_keeps_pictures_and_slots total ev g :
  pictures (puzzlePiecesAll (eventPoll total ev g)) = pictures (puzzlePiecesAll g)
  ∧ dstCoords (eventPoll total ev g) = dstCoords g
  ∧ length (puzzlePiecesAll (eventPoll total ev g)) = length (puzzlePiecesAll g).
Proof.
  unfold eventPoll.
  destruct (resolvePending_frame (handleEvent total ev g)) as [Hp1 Hd1].
  destruct (handleEvent_frame total ev g) as [Hp2 Hd2].
  assert (pictures (puzzlePiecesAll (resolvePending (handleEvent total ev g)))
          = pictures (puzzlePiecesAll g)) as Hp by congruence.
  split_and!; [done|congruence|].
  apply (f_equal length) in Hp. unfold pictures in Hp. by rewrite !length_fmap in Hp.
Qed.

Lemma handleEvent_lookup_shown total ev g i p :
  puzzlePiecesAll g !! i = Some p → puzzlePiece.visState p ≠ HIDDEN →
  puzzlePiecesAll (handleEvent total ev g) !! i = Some p.
Proof.
  intros Hp Hvis. destruct ev as [|btn|]; simpl; [done| |done]. case_decide; [|done].
  destruct (clickLoop_cases btn total 0 g) as [->|(j & q & Hq & Hhid & _ & ->)]; [done|].
  simpl. rewrite list_lookup_alter_ne; [done|]. intros ->. congruence.
Qed.

Lemma resolvePending_lookup_unflipped total g i p :
  Inv total g →
  puzzlePiecesAll g !! i = Some p → puzzlePiece.visState p ≠ FLIPPED →
  puzzlePiecesAll (resolvePending g) !! i = Some p.
Proof.
  intros [_ _ _ _ Hmax _ H1 H2] Hp Hvis. unfold resolvePending, maxFlipped in *.
  destruct (Z.geb_spec (flippedCount g) 2) as [Hge|]; [|done].
  destruct (_ >? _)%Z; [|done].
  pose proof (H1 ltac:(lia)) as (p0 & Hp0 & Hv0)%fmap_Some.
  destruct (H2 ltac:(lia)) as [(p1 & Hp1 & Hv1)%fmap_Some _].
  rewrite Hp0, Hp1.
  assert (∀ st, puzzlePiecesAll (settle st g) !! i = Some p) as Hsettle.
  { intros st. rewrite settle_lookup, decide_False; [done|].
    intros [->| ->]; congruence. }
  case_decide; [destruct (puzzleSolved _)|]; apply Hsettle.
Qed.

(** X8.  A solved piece stays solved: in a state of play, a piece that is
    [SOLVED] is the same piece, still [SOLVED], after any call of
    [eventPoll]. *)
Theorem solved_piece_stays_solved total g ev i p :
  reachable total g →
  puzzlePiecesAll g !! i = Some p →
  puzzlePiece.visState p = SOLVED →
  puzzlePiecesAll (eventPoll total ev g) !! i = Some p.
Proof.
  intros Hreach Hp Hvis. unfold eventPoll.
  apply (resolvePending_lookup_unflipped total).
  - by apply Inv_handleEvent, reachable_Inv.
  - apply handleEvent_lookup_shown; [done|congruence].
  - congruence.
Qed.

Lemma reachable_iter_eventPoll total ev n g :
  reachable total g → reachable total (Nat.iter n (eventPoll total ev) g).
Proof.
  intros Hg. induction n as [|n IH]; [done|].
  rewrite Nat.iter_succ. by apply reach_tick, reach_event.
Qed.

Lemma reachable_solvedPair : reachable puzzlePiecesTotal solvedPair.
Proof. apply reachable_iter_eventPoll, reachable_twoFlipped. Qed.

Lemma solved_piece_stays_solved_witness :
  puzzlePiecesAll (eventPoll puzzlePiecesTotal (clickAt 80 50) solvedPair) !! 0
  = Some (puzzlePiece.mk (SDL_Rect.mk 0 0 40 40) SOLVED "1234567891").
Proof.
  apply (solved_piece_stays_solved puzzlePiecesTotal solvedPair (clickAt 80 50) 0
           (puzzlePiece.mk (SDL_Rect.mk 0 0 40 40) SOLVED "1234567891")).
  - exact reachable_solvedPair.
  - vm_compute. reflexivity.
  - reflexivity.
Defined.

Lemma allSolved_countFlipped v : allSolved v → countFlipped v = 0.
Proof.
  induction 1 as [|p v Hp _ IH]; [done|].
  rewrite countFlipped_cons, IH, decide_False; [done|]. by rewrite Hp.
Qed.

(** On a board without a [HIDDEN] piece no click does anything. *)
Lemma handleEvent_allSolved total btn g :
  allSolved (puzzlePiecesAll g) → handleEvent total (SDL_MOUSEBUTTONDOWN btn) g = g.
Proof.
  intros Hall. simpl. case_decide; [|done]. apply clickLoop_no_hit.
  intros j rj pj _ Hpj _ Hhid.
  apply (Forall_lookup_1 _ _ _ _ Hall) in Hpj. simpl in Hpj. congruence.
Qed.

(** X9.  The program leaves play for [TRANSITION] only with a solved
    puzzle: in every state of play whose program state is [TRANSITION],
    every piece is [SOLVED]. *)
Theorem transition_means_solved total g :
  reachable total g →
  programState g = TRANSITION →
  allSolved (puzzlePiecesAll g).
Proof.
  induction 1 as [mt engine|ev g Hreach IH|g Hreach IH]; intros Hst.
  - by rewrite startGame_eq in Hst.
  - destruct ev as [|btn|]; [done| |by apply IH].
    assert (programState g = TRANSITION) as Hg.
    { revert Hst. simpl. case_decide; [|done]. by rewrite clickLoop_programState. }
    rewrite handleEvent_allSolved; auto.
  - destruct (decide (programState g = TRANSITION)) as [Hg|Hg].
    + specialize (IH Hg).
      pose proof (reachable_Inv _ _ Hreach) as [_ _ _ Hcnt _ _ _ _].
      rewrite allSolved_countFlipped in Hcnt by done.
      unfold resolvePending.
      by destruct (Z.geb_spec (flippedCount g) maxFlipped); [unfold maxFlipped in *; lia|].
    + revert Hst. unfold resolvePending.
      destruct (_ >=? _)%Z; [|done]. destruct (_ >? _)%Z; [|done].
      destruct (puzzlePiecesAll g !! _); [|done]. destruct (puzzlePiecesAll g !! _); [|done].
      case_decide; [|done].
      destruct (puzzleSolved _) eqn:Hsolved; [|done].
      intros _. by apply puzzleSolved_true.
Qed.

Lemma reachable_wonBoard : reachable 2 wonBoard.
Proof. apply reachable_iter_eventPoll, reach_event, reach_event, reach_start. Qed.

Lemma transition_means_solved_witness : allSolved (puzzlePiecesAll wonBoard).
Proof.
  apply (transition_means_solved 2 wonBoard reachable_wonBoard).
  vm_compute. reflexivity.
Defined.

(** ** Pairs *)

(** Writing into one position moves the number of elements with a property
    by what the element was and what it becomes. *)
Lemma filter_alter_length {A} (P : A → Prop) `{!∀ x, Decision (P x)} (f : A → A) i v p :
  v !! i = Some p →
  length (filter P (alter f i v)) + (if decide (P p) then 1 else 0)
  = length (filter P v) + (if decide (P (f p)) then 1 else 0).
Proof.
  revert i. induction v as [|q v IH]; intros [|i] Hi; simplify_eq/=.
  - rewrite !filter_cons. repeat case_decide; simpl; lia.
  - rewrite !filter_cons. specialize (IH _ Hi).
    destruct (decide (P q)); simpl; lia.
Qed.

Lemma countSolvedId_alter_unsolved st i j v p :
  v !! j = Some p → puzzlePiece.visState p ≠ SOLVED → st ≠ SOLVED →
  countSolvedId i (alter (setVisState st) j v) = countSolvedId i v.
Proof.
  intros Hp Hvis Hst. unfold countSolvedId.
  pose proof (filter_alter_length
                (λ p, puzzlePiece.visState p = SOLVED ∧ puzzlePiece.id p = i)
                (setVisState st) j v p Hp) as Hc.
  rewrite !decide_False in Hc by (simpl; tauto). lia.
Qed.

Lemma countSolvedId_alter_solve i j v p :
  v !! j = Some p → puzzlePiece.visState p ≠ SOLVED →
  countSolvedId i (alter (setVisState SOLVED) j v)
  = countSolvedId i v + (if decide (puzzlePiece.id p = i) then 1 else 0).
Proof.
  intros Hp Hvis. unfold countSolvedId.
  pose proof (filter_alter_length
                (λ p, puzzlePiece.visState p = SOLVED ∧ puzzlePiece.id p = i)
                (setVisState SOLVED) j v p Hp) as Hc.
  simpl in Hc. revert Hc. repeat case_decide; intros Hc; try lia; exfalso; tauto.
Qed.

Lemma countSolvedId_allHidden i v : allHidden v → countSolvedId i v = 0.
Proof.
  unfold countSolvedId. induction 1 as [|p v Hp _ IH]; [done|].
  rewrite filter_cons, decide_False; [done|]. rewrite Hp. by intros [? _].
Qed.

Lemma startGame_allHidden total mt engine :
  allHidden (puzzlePiecesAll (startGame total mt engine)).
Proof.
  rewrite startGame_eq. simpl. unfold allHidden.
  rewrite shuffle_Permutation. apply beforeShuffle_allHidden.
Qed.

(** X10.  Pieces are solved two at a time and only with equal identities:
    in every state of play and for every identity, the number of [SOLVED]
    pieces that carry it is even. *)
Theorem solved_in_pairs total g i :
  reachable total g →
  Nat.Even (countSolvedId i (puzzlePiecesAll g)).
Proof.
  induction 1 as [mt engine|ev g Hreach IH|g Hreach IH].
  - exists 0. apply countSolvedId_allHidden, startGame_allHidden.
  - destruct ev as [|btn|]; simpl; [done| |done]. case_decide; [|done].
    destruct (clickLoop_cases btn total 0 g) as [->|(j & p & Hp & Hhid & _ & ->)]; [done|].
    simpl. rewrite (countSolvedId_alter_unsolved _ _ _ _ p); [done..| |]; congruence.
  - pose proof (reachable_Inv _ _ Hreach) as [_ _ _ _ Hmax _ H1 H2].
    unfold resolvePending, maxFlipped in *.
    destruct (Z.geb_spec (flippedCount g) 2) as [Hge|]; [|done].
    destruct (_ >? _)%Z; [|done].
    pose proof (H1 ltac:(lia)) as (p0 & Hp0 & Hv0)%fmap_Some.
    destruct (H2 ltac:(lia)) as [(p1 & Hp1 & Hv1)%fmap_Some Hne].
    rewrite Hp0, Hp1.
    set (i0 := flippedIndices g !!! 0) in *. set (i1 := flippedIndices g !!! 1) in *.
    assert (∀ st, alter (setVisState st) i0 (puzzlePiecesAll g) !! i1 = Some p1) as Hp1'.
    { intros st. by rewrite list_lookup_alter_ne. }
    assert (countSolvedId i (puzzlePiecesAll (settle HIDDEN g))
            = countSolvedId i (puzzlePiecesAll g)) as Hhid.
    { unfold settle. simpl. fold i0 i1.
      rewrite (countSolvedId_alter_unsolved _ _ _ _ p1), (countSolvedId_alter_unsolved _ _ _ _ p0);
        (done || congruence). }
    case_decide as Hid; [|by rewrite Hhid].
    assert (Nat.Even (countSolvedId i (puzzlePiecesAll (settle SOLVED g)))) as Hev.
    { unfold settle. simpl. fold i0 i1.
      rewrite (countSolvedId_alter_solve _ _ _ p1), (countSolvedId_alter_solve _ _ _ p0);
        [|done|congruence|done|congruence].
      rewrite Hid. destruct IH as [m ->].
      case_decide; [exists (S m)|exists m]; lia. }
    by destruct (puzzleSolved _).
Qed.

Lemma solved_in_pairs_witness :
  Nat.Even (countSolvedId "1234567891" (puzzlePiecesAll solvedPair)).
Proof.
  exact (solved_in_pairs puzzlePiecesTotal solvedPair "1234567891" reachable_solvedPair).
Defined.

Lemma countFlipped_pos v j p :
  v !! j = Some p → puzzlePiece.visState p = FLIPPED → 1 ≤ countFlipped v.
Proof.
  intros Hp Hvis. pose proof (countFlipped_alter HIDDEN j v p Hp) as Hc.
  rewrite Hvis, decide_True, decide_False in Hc by done. lia.
Qed.

(** X11.  The pending indices are exactly the positions of the flipped
    pieces: in a state of play, the piece at position [j] is [FLIPPED] if
    and only if [j] is the first pending index while at least one piece is
    pending, or the second while two are; and two pending indices are two
    different positions. *)
Theorem pending_indices_track_flipped total g j p :
  reachable total g →
  puzzlePiecesAll g !! j = Some p →
  (puzzlePiece.visState p = FLIPPED ↔
   ((1 ≤ flippedCount g)%Z ∧ j = flippedIndices g !!! 0)
   ∨ (flippedCount g = 2%Z ∧ j = flippedIndices g !!! 1))
  ∧ (flippedCount g = 2%Z → flippedIndices g !!! 0 ≠ flippedIndices g !!! 1).
Proof.
  intros [_ _ _ Hcnt Hmax _ H1 H2]%reachable_Inv Hp. unfold maxFlipped in *.
  split; [|by intros [_ ?]%H2]. split.
  - intros Hvis.
    destruct (decide (1 ≤ flippedCount g)%Z) as [Hge|Hlt].
    2:{ pose proof (countFlipped_pos _ _ _ Hp Hvis). lia. }
    destruct (decide (j = flippedIndices g !!! 0)) as [->|Hne0]; [by left|].
    pose proof (H1 Hge) as (p0 & Hp0 & Hv0)%fmap_Some.
    pose proof (countFlipped_alter HIDDEN _ _ p0 Hp0) as Hc0.
    rewrite <-Hv0, decide_True, decide_False in Hc0 by done.
    set (v0 := alter (setVisState HIDDEN) (flippedIndices g !!! 0) (puzzlePiecesAll g)) in *.
    assert (v0 !! j = Some p) as Hp' by (unfold v0; by rewrite list_lookup_alter_ne).
    destruct (decide (flippedCount g = 2%Z)) as [Htwo|Hone].
    2:{ pose proof (countFlipped_pos _ _ _ Hp' Hvis). lia. }
    destruct (decide (j = flippedIndices g !!! 1)) as [->|Hne1]; [by right|].
    destruct (H2 Htwo) as [(p1 & Hp1 & Hv1)%fmap_Some Hne].
    assert (v0 !! (flippedIndices g !!! 1) = Some p1) as Hp1'
      by (unfold v0; by rewrite list_lookup_alter_ne).
    pose proof (countFlipped_alter HIDDEN _ _ p1 Hp1') as Hc1.
    rewrite <-Hv1, decide_True, decide_False in Hc1 by done.
    assert (alter (setVisState HIDDEN) (flippedIndices g !!! 1) v0 !! j = Some p) as Hp''
      by (by rewrite list_lookup_alter_ne).
    pose proof (countFlipped_pos _ _ _ Hp'' Hvis). lia.
  - intros [[Hge ->]|[Htwo ->]].
    + specialize (H1 Hge). rewrite Hp in H1. by simplify_eq/=.
    + destruct (H2 Htwo) as [H2' _]. rewrite Hp in H2'. by simplify_eq/=.
Qed.

Lemma pending_indices_track_flipped_witness :
  (FLIPPED = FLIPPED ↔
   ((1 ≤ flippedCount twoFlipped)%Z ∧ 50 = flippedIndices twoFlipped !!! 0)
   ∨ (flippedCount twoFlipped = 2%Z ∧ 50 = flippedIndices twoFlipped !!! 1))
  ∧ (flippedCount twoFlipped = 2%Z
     → flippedIndices twoFlipped !!! 0 ≠ flippedIndices twoFlipped !!! 1).
Proof.
  apply (pending_indices_track_flipped puzzlePiecesTotal twoFlipped 50
           (puzzlePiece.mk (SDL_Rect.mk 0 0 40 40) FLIPPED "1234567891")
           reachable_twoFlipped).
  vm_compute. reflexivity.
Defined.

(** ** The delay *)

Lemma handleEvent_pending total ev g :
  (flippedCount g >= maxFlipped)%Z →
  puzzlePiecesAll (handleEvent total ev g) = puzzlePiecesAll g
  ∧ flippedCount (handleEvent total ev g) = flippedCount g
  ∧ flippedIndices (handleEvent total ev g) = flippedIndices g
  ∧ flipTimer (handleEvent total ev g) = flipTimer g.
Proof.
  intros Hge. destruct ev as [|btn|]; simpl; [done| |done].
  case_decide; [|done]. by rewrite clickLoop_pending.
Qed.

Lemma eventPoll_waits total ev g :
  (flippedCount g >= maxFlipped)%Z → (flipTimer g < flipDelay)%Z →
  puzzlePiecesAll (eventPoll total ev g) = puzzlePiecesAll g
  ∧ flippedCount (eventPoll total ev g) = flippedCount g
  ∧ flippedIndices (eventPoll total ev g) = flippedIndices g
  ∧ flipTimer (eventPoll total ev g) = (flipTimer g + 1)%Z.
Proof.
  intros Hge Hlt. destruct (handleEvent_pending total ev g Hge) as (Hp & Hc & Hi & Ht).
  unfold eventPoll, resolvePending. rewrite Hc, Ht.
  destruct (Z.geb_spec (flippedCount g) maxFlipped); [|lia].
  destruct (Z.gtb_spec (flipTimer g + 1) flipDelay); [lia|]. done.
Qed.

Lemma runEvents_waits total evs g :
  (flippedCount g >= maxFlipped)%Z →
  (flipTimer g + Z.of_nat (length evs) ≤ flipDelay)%Z →
  puzzlePiecesAll (runEvents total evs g) = puzzlePiecesAll g
  ∧ flippedCount (runEvents total evs g) = flippedCount g
  ∧ flippedIndices (runEvents total evs g) = flippedIndices g
  ∧ flipTimer (runEvents total evs g) = (flipTimer g + Z.of_nat (length evs))%Z.
Proof.
  revert g. induction evs as [|ev evs IH]; intros g Hge Hlen.
  { simpl. split_and!; try done. lia. }
  simpl in Hlen |- *. unfold runEvents in *. simpl.
  destruct (eventPoll_waits total ev g Hge ltac:(lia)) as (Hp & Hc & Hi & Ht).
  destruct (IH (eventPoll total ev g) ltac:(lia) ltac:(lia)) as (Hp' & Hc' & Hi' & Ht').
  split_and!; [congruence..|]. lia.
Qed.

Lemma runEvents_dstCoords total evs g : dstCoords (runEvents total evs g) = dstCoords g.
Proof.
  revert g. induction evs as [|ev evs IH]; intros g; [done|].
  unfold runEvents in *. simpl. rewrite IH. unfold eventPoll.
  destruct (resolvePending_frame (handleEvent total ev g)) as [_ ->].
  by destruct (handleEvent_frame total ev g) as [_ ->].
Qed.

(** X12.  No input disturbs or shortens the delay.  With two pieces
    pending, as long as the timer has not reached the delay, calls of
    [eventPoll] with any events whatsoever leave every piece, every slot,
    the pending indices and [flippedCount] as they are, and [flipTimer]
    grows by one per call. *)
Theorem delay_is_undisturbed total evs g :
  (flippedCount g >= maxFlipped)%Z →
  (flipTimer g + Z.of_nat (length evs) ≤ flipDelay)%Z →
  puzzlePiecesAll (runEvents total evs g) = puzzlePiecesAll g
  ∧ flippedCount (runEvents total evs g) = flippedCount g
  ∧ flippedIndices (runEvents total evs g) = flippedIndices g
  ∧ flipTimer (runEvents total evs g) = (flipTimer g + Z.of_nat (length evs))%Z
  ∧ dstCoords (runEvents total evs g) = dstCoords g.
Proof.
  intros Hge Hlen.
  destruct (runEvents_waits total evs g Hge Hlen) as (Hp & Hc & Hi & Ht).
  split_and!; try done. apply runEvents_dstCoords.
Qed.

Lemma delay_is_undisturbed_witness :
  puzzlePiecesAll (runEvents puzzlePiecesTotal
                     [clickAt 125 50; SDL_QUIT; SDL_OTHEREVENT; clickAt 80 50] twoFlipped)
  = puzzlePiecesAll twoFlipped
  ∧ flippedCount (runEvents puzzlePiecesTotal
                    [clickAt 125 50; SDL_QUIT; SDL_OTHEREVENT; clickAt 80 50] twoFlipped)
    = flippedCount twoFlipped
  ∧ flippedIndices (runEvents puzzlePiecesTotal
                      [clickAt 125 50; SDL_QUIT; SDL_OTHEREVENT; clickAt 80 50] twoFlipped)
    = flippedIndices twoFlipped
  ∧ flipTimer (runEvents puzzlePiecesTotal
                 [clickAt 125 50; SDL_QUIT; SDL_OTHEREVENT; clickAt 80 50] twoFlipped)
    = (flipTimer twoFlipped
       + Z.of_nat (length [clickAt 125 50; SDL_QUIT; SDL_OTHEREVENT; clickAt 80 50]))%Z
  ∧ dstCoords (runEvents puzzlePiecesTotal
                 [clickAt 125 50; SDL_QUIT; SDL_OTHEREVENT; clickAt 80 50] twoFlipped)
    = dstCoords twoFlipped.
Proof.
  apply (delay_is_undisturbed puzzlePiecesTotal
           [clickAt 125 50; SDL_QUIT; SDL_OTHEREVENT; clickAt 80 50] twoFlipped).
  - vm_compute. discriminate.
  - vm_compute. discriminate.
Defined.

Lemma reachable_runEvents total evs g :
  reachable total g → reachable total (runEvents total evs g).
Proof.
  revert g. induction evs as [|ev evs IH]; intros g Hg; [done|].
  apply IH. by apply reach_tick, reach_event.
Qed.

(** X13.  The comparison is never skipped.  In a state of play with two
    pieces pending, once [eventPoll] has been called as often as the timer
    is short of 41, whatever the events were, no piece is pending and no
    piece is [FLIPPED] any more, and the timer is back at 0. *)
Theorem pending_pair_is_resolved total evs g :
  reachable total g →
  flippedCount g = 2%Z →
  (flipTimer g + Z.of_nat (length evs) = flipDelay + 1)%Z →
  flippedCount (runEvents total evs g) = 0%Z
  ∧ countFlipped (puzzlePiecesAll (runEvents total evs g)) = 0
  ∧ flipTimer (runEvents total evs g) = 0%Z.
Proof.
  intros Hreach Hfc Hlen.
  pose proof (reachable_Inv _ _ Hreach) as [_ _ _ _ _ Htm _ _].
  induction evs as [|ev evs0 _] using rev_ind; [simpl in Hlen; lia|].
  rewrite length_app in Hlen. simpl in Hlen.
  unfold runEvents. rewrite foldl_app. simpl. fold (runEvents total evs0 g).
  destruct (runEvents_waits total evs0 g) as (Hp & Hc & Hi & Ht);
    [unfold maxFlipped; lia|lia|].
  set (g1 := runEvents total evs0 g) in *.
  assert (reachable total g1) as Hreach1 by by apply reachable_runEvents.
  assert (flippedCount (eventPoll total ev g1) = 0%Z ∧ flipTimer (eventPoll total ev g1) = 0%Z)
    as [Hzero Htimer].
  { destruct (handleEvent_pending total ev g1) as (Hp' & Hc' & Hi' & Ht');
      [unfold maxFlipped; lia|].
    pose proof (Inv_handleEvent total ev g1 (reachable_Inv _ _ Hreach1))
      as [_ _ _ _ _ _ H1 H2].
    unfold eventPoll, resolvePending.
    destruct (Z.geb_spec (flippedCount (handleEvent total ev g1)) maxFlipped);
      [|unfold maxFlipped in *; lia].
    destruct (Z.gtb_spec (flipTimer (handleEvent total ev g1) + 1) flipDelay); [|lia].
    pose proof (H1 ltac:(lia)) as (p0 & Hp0 & _)%fmap_Some.
    destruct (H2 ltac:(lia)) as [(p1 & Hp1 & _)%fmap_Some _].
    rewrite Hp0, Hp1. case_decide; [by destruct (puzzleSolved _)|done]. }
  split_and!; [done| |done].
  pose proof (reachable_Inv _ _ (reach_tick _ _ (reach_event _ ev _ Hreach1)))
    as [_ _ _ Hcnt _ _ _ _].
  fold (eventPoll total ev g1) in Hcnt. lia.
Qed.

Lemma pending_pair_is_resolved_witness :
  flippedCount (runEvents puzzlePiecesTotal (replicate 41 SDL_OTHEREVENT) twoFlipped) = 0%Z
  ∧ countFlipped (puzzlePiecesAll
                    (runEvents puzzlePiecesTotal (replicate 41 SDL_OTHEREVENT) twoFlipped)) = 0
  ∧ flipTimer (runEvents puzzlePiecesTotal (replicate 41 SDL_OTHEREVENT) twoFlipped) = 0%Z.
Proof.
  apply (pending_pair_is_resolved puzzlePiecesTotal (replicate 41 SDL_OTHEREVENT) twoFlipped
           reachable_twoFlipped).
  - vm_compute. reflexivity.
  - vm_compute. reflexivity.
Defined.

(** ** Frames *)

Lemma renderLoop_elem c n rectI g :
  c ∈ renderLoop n rectI g →
  ∃ i p dst, rectI ≤ i < rectI + n ∧ puzzlePiecesAll g !! i = Some p
             ∧ dstCoords g !! i = Some dst ∧ c ∈ renderPiece p dst.
Proof.
  revert rectI. induction n as [|n IH]; intros rectI; simpl; [by intros ?%elem_of_nil|].
  destruct (puzzlePiecesAll g !! rectI) as [p|] eqn:Hp; [|by intros ?%elem_of_nil].
  destruct (dstCoords g !! rectI) as [dst|] eqn:Hd; [|by intros ?%elem_of_nil].
  intros [Hc|Hc]%elem_of_app.
  - exists rectI, p, dst. split_and!; (done || lia).
  - destruct (IH _ Hc) as (i & q & d & Hi & Hq & Hdq & Hin).
    exists i, q, d. split_and!; (done || lia).
Qed.

(** X14.  A frame never draws a solved piece, never draws outside the slots
    and never uses another puzzle texture than the first one: every copy
    call of a frame goes to the rectangle of a slot [i] < [total] whose
    piece is [HIDDEN], and then it is the hidden texture, or [FLIPPED], and
    then it is the piece's source rectangle of puzzle texture 0 or the
    outline. *)
Theorem frame_draws_only_unsolved_slots total g tex src dst :
  SDL_RenderCopy tex src dst ∈ renderUpdate total g →
  ∃ i p, i < total ∧ puzzlePiecesAll g !! i = Some p ∧ dstCoords g !! i = Some dst
         ∧ ((puzzlePiece.visState p = HIDDEN ∧ tex = pieceHiddenTex ∧ src = None)
            ∨ (puzzlePiece.visState p = FLIPPED
               ∧ ((tex = puzzleTextures 0 ∧ src = Some (puzzlePiece.srcRect p))
                  ∨ (tex = flippedOutlineTex ∧ src = None)))).
Proof.
  unfold renderUpdate. rewrite elem_of_cons, elem_of_app, list_elem_of_singleton.
  intros [?|[Hc|?]]; [done| |done].
  apply renderLoop_elem in Hc as (i & p & d & Hi & Hp & Hd & Hin).
  exists i, p. unfold renderPiece in Hin.
  destruct (decide (puzzlePiece.visState p = HIDDEN)) as [Hh|Hh].
  - apply list_elem_of_singleton in Hin. simplify_eq. split_and!; auto. lia.
  - destruct (decide (puzzlePiece.visState p = FLIPPED)) as [Hf|Hf];
      [|by apply elem_of_nil in Hin].
    apply elem_of_cons in Hin as [Hin|Hin%list_elem_of_singleton];
      simplify_eq; split_and!; auto; lia.
Qed.

Lemma frame_draws_only_unsolved_slots_witness :
  ∃ i p, i < puzzlePiecesTotal ∧ puzzlePiecesAll twoFlipped !! i = Some p
         ∧ dstCoords twoFlipped !! i = Some (SDL_Rect.mk 75 40 40 40)
         ∧ ((puzzlePiece.visState p = HIDDEN ∧ flippedOutlineTex = pieceHiddenTex
             ∧ @None SDL_Rect.t = None)
            ∨ (puzzlePiece.visState p = FLIPPED
               ∧ ((flippedOutlineTex = puzzleTextures 0
                   ∧ None = Some (puzzlePiece.srcRect p))
                  ∨ (flippedOutlineTex = flippedOutlineTex ∧ @None SDL_Rect.t = None)))).
Proof.
  apply (frame_draws_only_unsolved_slots puzzlePiecesTotal twoFlipped
           flippedOutlineTex None (SDL_Rect.mk 75 40 40 40)).
  apply (bool_decide_unpack _). vm_compute. exact I.
Defined.

(** ** The loop of [main] *)

(** X15.  Once the program state is [TRANSITION], the loop of [main] goes
    round without polling events or drawing: every later state is the very
    same state, so the program never gets to [SHUTDOWN] on its own or by a
    quit event. *)
Theorem transition_is_absorbing total g g' :
  programState g = TRANSITION →
  rtc (mainRound total) g g' →
  g' = g.
Proof.
  intros Hst Hrun. induction Hrun as [g|g g1 g' Hstep _ IH]; [done|].
  destruct Hstep as [mt engine g Hg|ev g Hg|g Hg]; [congruence..|]. by apply IH.
Qed.

Lemma transition_is_absorbing_witness : wonBoard = wonBoard.
Proof.
  apply (transition_is_absorbing 2 wonBoard wonBoard).
  - vm_compute. reflexivity.
  - apply rtc_once, round_transition. vm_compute. reflexivity.
Defined.

(** X16.  Setup hands over a board on which every piece is face down and
    nothing is pending, whatever the two random sources return. *)
Theorem setup_board_face_down total mt engine :
  allHidden (puzzlePiecesAll (startGame total mt engine))
  ∧ countFlipped (puzzlePiecesAll (startGame total mt engine)) = 0
  ∧ flippedCount (startGame total mt engine) = 0%Z
  ∧ flipTimer (startGame total mt engine) = 0%Z
  ∧ flippedIndices (startGame total mt engine) = [0; 0].
Proof.
  pose proof (startGame_allHidden total mt engine) as Hall.
  split_and!; [done|by apply countFlipped_allHidden|by rewrite startGame_eq..].
Qed.



(** ** A whole turn *)

(** The timer only runs while two pieces are pending. *)
Lemma reachable_timer_idle total g :
  reachable total g → (flippedCount g < maxFlipped)%Z → flipTimer g = 0%Z.
Proof.
  induction 1 as [mt engine|ev g Hreach IH|g Hreach IH].
  - by rewrite startGame_eq.
  - destruct ev as [|btn|]; simpl; [done| |done]. case_decide; [|done].
    destruct (clickLoop_cases btn total 0 g) as [->|(j & p & _ & _ & Hlt & ->)]; [done|].
    simpl. intros _. by apply IH.
  - unfold resolvePending.
    destruct (Z.geb_spec (flippedCount g) maxFlipped) as [Hge|]; [|done].
    destruct (_ >? _)%Z; [|simpl; lia].
    destruct (puzzlePiecesAll g !! _); [|lia]. destruct (puzzlePiecesAll g !! _); [|lia].
    case_decide; [by destruct (puzzleSolved _)|done].
Qed.

Lemma setVisState_twice st st' p : setVisState st (setVisState st' p) = setVisState st p.
Proof. done. Qed.

(** X18.  A whole turn.  From a state of play with nothing pending, a left
    click into the slot of a hidden piece [a], a left click into the slot
    of another hidden piece [b] and 40 further calls of [eventPoll] with any
    events end in a state with nothing pending in which [a] and [b] are both
    [SOLVED] when their identities are equal and both [HIDDEN] again when
    they differ; all other pieces and all slots are as before. *)
Theorem full_turn total g btnA btnB a b ra rb pa pb evs :
  reachable total g →
  flippedCount g = 0%Z →
  SDL_MouseButtonEvent.button btnA = SDL_BUTTON_LEFT →
  SDL_MouseButtonEvent.button btnB = SDL_BUTTON_LEFT →
  dstCoords g !! a = Some ra → mouseWithinRectBound btnA ra = true →
  puzzlePiecesAll g !! a = Some pa → puzzlePiece.visState pa = HIDDEN →
  dstCoords g !! b = Some rb → mouseWithinRectBound btnB rb = true →
  puzzlePiecesAll g !! b = Some pb → puzzlePiece.visState pb = HIDDEN →
  a ≠ b →
  length evs = 40 →
  let g' := runEvents total (SDL_MOUSEBUTTONDOWN btnA :: SDL_MOUSEBUTTONDOWN btnB :: evs) g in
  let st := if decide (puzzlePiece.id pa = puzzlePiece.id pb) then SOLVED else HIDDEN in
  puzzlePiecesAll g' = <[b := setVisState st pb]> (<[a := setVisState st pa]> (puzzlePiecesAll g))
  ∧ flippedCount g' = 0%Z ∧ flipTimer g' = 0%Z ∧ dstCoords g' = dstCoords g.
Proof.
  intros Hreach Hfc HlA HlB Hra HinA Hpa HhA Hrb HinB Hpb HhB Hab Hlen g' st.
  pose proof (reachable_Inv _ _ Hreach) as [_ _ Hil _ _ _ _ _].
  assert (flipTimer g = 0%Z) as Ht0
    by (apply (reachable_timer_idle total); [done|unfold maxFlipped; lia]).
  (* the call with the first click *)
  assert (eventPoll total (SDL_MOUSEBUTTONDOWN btnA) g = flipPiece a g) as Hg1.
  { unfold eventPoll.
    rewrite (handleEvent_hit total g btnA a ra pa) by (done || unfold maxFlipped; lia).
    unfold resolvePending. simpl. by rewrite Hfc. }
  assert (reachable total (flipPiece a g)) as Hreach1.
  { rewrite <-Hg1. by apply reach_tick, reach_event. }
  (* the call with the second click *)
  assert (puzzlePiecesAll (flipPiece a g) !! b = Some pb) as Hpb1.
  { simpl. by rewrite list_lookup_alter_ne. }
  set (g2 := eventPoll total (SDL_MOUSEBUTTONDOWN btnB) (flipPiece a g)).
  assert (puzzlePiecesAll g2
            = alter (setVisState FLIPPED) b (alter (setVisState FLIPPED) a (puzzlePiecesAll g))
          ∧ flippedCount g2 = 2%Z ∧ flipTimer g2 = 1%Z
          ∧ flippedIndices g2 = <[1 := b]> (<[0 := a]> (flippedIndices g))
          ∧ dstCoords g2 = dstCoords g) as (Hp2 & Hc2 & Ht2 & Hi2 & Hd2).
  { unfold g2, eventPoll.
    rewrite (handleEvent_hit total (flipPiece a g) btnB b rb pb)
      by (done || simpl; unfold maxFlipped; lia).
    unfold resolvePending, flipPiece. simpl. rewrite Hfc, Ht0. done. }
  (* the wait *)
  induction evs as [|ev evs0 _] using rev_ind; [done|].
  rewrite length_app in Hlen. simpl in Hlen.
  subst g'. unfold runEvents. simpl. rewrite foldl_app. simpl.
  rewrite Hg1. fold g2. fold (runEvents total evs0 g2).
  destruct (runEvents_waits total evs0 g2) as (Hp3 & Hc3 & Hi3 & Ht3);
    [unfold maxFlipped; lia|unfold flipDelay; lia|].
  pose proof (runEvents_dstCoords total evs0 g2) as Hd3.
  set (g3 := runEvents total evs0 g2) in *.
  (* the call that compares *)
  destruct (handleEvent_pending total ev g3) as (Hp4 & Hc4 & Hi4 & Ht4);
    [unfold maxFlipped; lia|].
  destruct (handleEvent_frame total ev g3) as [_ Hd4].
  unfold eventPoll. set (g4 := handleEvent total ev g3) in *.
  assert (flippedIndices g4 !!! 0 = a) as Ha4.
  { rewrite Hi4, Hi3, Hi2, list_lookup_total_insert_ne by done.
    by rewrite list_lookup_total_insert_eq by lia. }
  assert (flippedIndices g4 !!! 1 = b) as Hb4.
  { rewrite Hi4, Hi3, Hi2. by rewrite list_lookup_total_insert_eq by (rewrite length_insert; lia). }
  assert (puzzlePiecesAll g4 !! a = Some (setVisState FLIPPED pa)) as Hpa4.
  { rewrite Hp4, Hp3, Hp2, list_lookup_alter_ne, list_lookup_alter_eq, Hpa by done. done. }
  assert (puzzlePiecesAll g4 !! b = Some (setVisState FLIPPED pb)) as Hpb4.
  { rewrite Hp4, Hp3, Hp2, list_lookup_alter_eq, list_lookup_alter_ne, Hpb by done. done. }
  assert (∀ st', puzzlePiecesAll (settle st' g4)
                 = <[b := setVisState st' pb]> (<[a := setVisState st' pa]> (puzzlePiecesAll g)))
    as Hsettle.
  { intros st'. unfold settle. simpl. rewrite Ha4, Hb4, Hp4, Hp3, Hp2.
    pose proof (lookup_lt_Some _ _ _ Hpa). pose proof (lookup_lt_Some _ _ _ Hpb).
    apply list_eq. intros j.
    destruct (decide (j = b)) as [->|Hjb].
    - rewrite list_lookup_alter_eq, list_lookup_alter_ne, list_lookup_alter_eq by done.
      rewrite list_lookup_alter_ne, Hpb by done.
      by rewrite list_lookup_insert_eq by (rewrite length_insert; lia).
    - rewrite list_lookup_alter_ne, list_lookup_insert_ne by done.
      destruct (decide (j = a)) as [->|Hja].
      + rewrite list_lookup_alter_eq, list_lookup_alter_ne, list_lookup_alter_eq, Hpa by done.
        by rewrite list_lookup_insert_eq by lia.
      + by rewrite !list_lookup_alter_ne, list_lookup_insert_ne by done. }
  unfold resolvePending. rewrite Ha4, Hb4, Hpa4, Hpb4.
  destruct (Z.geb_spec (flippedCount g4) maxFlipped); [|unfold maxFlipped in *; lia].
  destruct (Z.gtb_spec (flipTimer g4 + 1) flipDelay); [|unfold flipDelay in *; lia].
  change (puzzlePiece.id (setVisState FLIPPED pa)) with (puzzlePiece.id pa).
  change (puzzlePiece.id (setVisState FLIPPED pb)) with (puzzlePiece.id pb).
  subst st. case_decide.
  - destruct (puzzleSolved _); (split_and!; [apply Hsettle|done|done|simpl; congruence]).
  - split_and!; [apply Hsettle|done|done|simpl; congruence].
Qed.

Lemma full_turn_witness :
  puzzlePiecesAll (runEvents puzzlePiecesTotal
                     (clickAt 80 50 :: clickAt 80 270 :: replicate 40 SDL_OTHEREVENT)
                     freshBoard)
  = <[50 := setVisState
              (if decide ("1234567891" = "1234567891") then SOLVED else HIDDEN)
              (puzzlePiece.mk (SDL_Rect.mk 0 0 40 40) HIDDEN "1234567891")]>
      (<[0 := setVisState
                (if decide ("1234567891" = "1234567891") then SOLVED else HIDDEN)
                (puzzlePiece.mk (SDL_Rect.mk 0 0 40 40) HIDDEN "1234567891")]>
         (puzzlePiecesAll freshBoard))
  ∧ flippedCount (runEvents puzzlePiecesTotal
                    (clickAt 80 50 :: clickAt 80 270 :: replicate 40 SDL_OTHEREVENT)
                    freshBoard) = 0%Z
  ∧ flipTimer (runEvents puzzlePiecesTotal
                 (clickAt 80 50 :: clickAt 80 270 :: replicate 40 SDL_OTHEREVENT)
                 freshBoard) = 0%Z
  ∧ dstCoords (runEvents puzzlePiecesTotal
                 (clickAt 80 50 :: clickAt 80 270 :: replicate 40 SDL_OTHEREVENT)
                 freshBoard) = dstCoords freshBoard.
Proof.
  apply (full_turn puzzlePiecesTotal freshBoard
           (SDL_MouseButtonEvent.mk SDL_BUTTON_LEFT 80 50)
           (SDL_MouseButtonEvent.mk SDL_BUTTON_LEFT 80 270)
           0 50 (SDL_Rect.mk 75 40 40 40) (SDL_Rect.mk 75 265 40 40)
           (puzzlePiece.mk (SDL_Rect.mk 0 0 40 40) HIDDEN "1234567891")
           (puzzlePiece.mk (SDL_Rect.mk 0 0 40 40) HIDDEN "1234567891")
           (replicate 40 SDL_OTHEREVENT)).
  - apply reach_start.
  - reflexivity.
  - reflexivity.
  - reflexivity.
  - vm_compute. reflexivity.
  - vm_compute. reflexivity.
  - vm_compute. reflexivity.
  - reflexivity.
  - vm_compute. reflexivity.
  - vm_compute. reflexivity.
  - vm_compute. reflexivity.
  - reflexivity.
  - discriminate.
  - reflexivity.
Defined.

(** ** Identities on the board *)

Lemma idOf_length mt r : String.length (idOf mt r) = 10.
Proof.
  rewrite idOf_digits, digitsString_length by apply draws_are_digits.
  by rewrite length_fmap, length_seq.
Qed.

Lemma idOf_eq_draws mt r r' :
  idOf mt r = idOf mt r' → ∀ i, i < 10 → dist mt (10 * r + i) = dist mt (10 * r' + i).
Proof.
  rewrite !idOf_digits.
  intros Heq%digitsString_inj; try apply draws_are_digits;
    [|by rewrite !length_fmap, !length_seq].
  intros i Hi. apply (f_equal (λ l : list nat, l !! i)) in Heq.
  rewrite !list_lookup_fmap, !lookup_seq_lt in Heq by done.
  exact (f_equal (default 0) Heq).
Qed.

Lemma firstHalf_lookup total mt j :
  firstHalf total mt !! j =
    if decide (j < total `div` 2) then Some (setupPiece total mt j) else None.
Proof.
  unfold firstHalf. case_decide.
  - by rewrite lookup_take_lt, afterSrcLoop_lookup, decide_True.
  - by rewrite lookup_take_ge by lia.
Qed.

Lemma firstHalf_ids total mt : ids (firstHalf total mt) = idOf mt <$> seq 0 (total `div` 2).
Proof.
  apply list_eq. intros j. unfold ids.
  rewrite !list_lookup_fmap, firstHalf_lookup. case_decide.
  - by rewrite lookup_seq_lt.
  - by rewrite lookup_seq_ge by lia.
Qed.

(** X19.  With an even number of pieces, when no two pieces of the first
    half draw the same ten digits, setup makes exactly [total / 2]
    identities and puts every identity on exactly two pieces. *)
Theorem setup_pairs_when_digits_differ total mt engine :
  Nat.even total = true →
  (∀ r r', r < total `div` 2 → r' < total `div` 2 →
           (∀ i, i < 10 → dist mt (10 * r + i) = dist mt (10 * r' + i)) → r = r') →
  distinctIds (puzzlePiecesAll (startGame total mt engine)) = total `div` 2
  ∧ ∀ i, i ∈ ids (puzzlePiecesAll (startGame total mt engine)) →
         countId i (puzzlePiecesAll (startGame total mt engine)) = 2.
Proof.
  intros Hev Hdiff. apply setup_pairs_when_draws_differ; [done|].
  rewrite firstHalf_ids. apply NoDup_fmap_2_strong; [|apply NoDup_seq].
  intros r r' [_ Hr]%elem_of_seq [_ Hr']%elem_of_seq Heq.
  apply Hdiff; [lia..|]. by apply idOf_eq_draws.
Qed.

Lemma setup_pairs_when_digits_differ_witness :
  distinctIds (puzzlePiecesAll (startGame 4 (λ k, k `div` 10) (λ k, k))) = 4 `div` 2
  ∧ ∀ i, i ∈ ids (puzzlePiecesAll (startGame 4 (λ k, k `div` 10) (λ k, k))) →
         countId i (puzzlePiecesAll (startGame 4 (λ k, k `div` 10) (λ k, k))) = 2.
Proof.
  apply (setup_pairs_when_digits_differ 4 (λ k, k `div` 10) (λ k, k)).
  - reflexivity.
  - intros r r' Hr Hr' Heq. specialize (Heq 0 ltac:(lia)).
    destruct r as [|[|r]], r' as [|[|r']];
      try reflexivity; try (vm_compute in Hr; lia); try (vm_compute in Hr'; lia);
      vm_compute in Heq; discriminate.
Defined.

(** X20.  With an even number of pieces every identity is on an even
    number of pieces of the board, twice as many as in the first half,
    whatever is drawn: a collision of draws makes a group of four or more,
    never a single piece. *)
Theorem identities_on_even_numbers total mt engine i :
  Nat.even total = true →
  countId i (puzzlePiecesAll (startGame total mt engine))
  = 2 * countId i (firstHalf total mt)
  ∧ Nat.Even (countId i (puzzlePiecesAll (startGame total mt engine)))
  ∧ countId i (puzzlePiecesAll (startGame total mt engine)) ≠ 1.
Proof.
  intros Hev. rewrite setup_doubles_identities by done.
  split_and!; [done|by eexists|lia].
Qed.

Lemma identities_on_even_numbers_witness :
  countId "1211111111" (puzzlePiecesAll (startGame puzzlePiecesTotal collidingDraws (λ k, k)))
  = 2 * countId "1211111111" (firstHalf puzzlePiecesTotal collidingDraws)
  ∧ Nat.Even (countId "1211111111"
                (puzzlePiecesAll (startGame puzzlePiecesTotal collidingDraws (λ k, k))))
  ∧ countId "1211111111"
      (puzzlePiecesAll (startGame puzzlePiecesTotal collidingDraws (λ k, k))) ≠ 1.
Proof.
  apply (identities_on_even_numbers puzzlePiecesTotal collidingDraws (λ k, k) "1211111111").
  reflexivity.
Defined.

(** X21.  With an odd number of pieces the copy of setup leaves the last
    piece of the vector out: the board carries exactly one piece with the
    empty identity, which has no partner. *)
Theorem odd_total_leaves_single_piece total mt engine :
  Nat.odd total = true →
  countId "" (puzzlePiecesAll (startGame total mt engine)) = 1
  ∧ defaultPiece ∈ puzzlePiecesAll (startGame total mt engine).
Proof.
  intros Hodd. apply Nat.odd_spec in Hodd as [h ->].
  rewrite startGame_eq. cbn [puzzlePiecesAll].
  rewrite (countId_Permutation _ _ _ (shuffle_Permutation _ _)), shuffle_Permutation.
  assert ((2 * h + 1) `div` 2 = h) as Hh
    by (symmetry; apply (Nat.div_unique _ _ _ 1); lia).
  assert (length (afterSrcLoop (2 * h + 1) mt) = 2 * h + 1) as Hlen.
  { unfold afterSrcLoop. by rewrite srcLoop_length, length_replicate. }
  assert (beforeShuffle (2 * h + 1) mt
          = firstHalf (2 * h + 1) mt ++ firstHalf (2 * h + 1) mt ++ [defaultPiece]) as ->.
  { unfold beforeShuffle, firstHalf. rewrite Hh, copyFirstHalf_spec by lia.
    do 2 f_equal. apply list_eq. intros j.
    rewrite lookup_drop, afterSrcLoop_lookup, Hh.
    destruct j as [|j].
    - by rewrite decide_False, decide_True by lia.
    - by rewrite decide_False, decide_False by lia. }
  assert (countId "" (firstHalf (2 * h + 1) mt) = 0) as Hnone.
  { apply countId_not_elem_of. rewrite firstHalf_ids.
    intros (r & Hr & _)%list_elem_of_fmap.
    pose proof (idOf_length mt r) as Hl. by rewrite <-Hr in Hl. }
  split.
  - rewrite !countId_app, Hnone. done.
  - rewrite !elem_of_app, list_elem_of_singleton. auto.
Qed.

Lemma odd_total_leaves_single_piece_witness :
  countId "" (puzzlePiecesAll (startGame 3 (λ k, k) (λ _, 0))) = 1
  ∧ defaultPiece ∈ puzzlePiecesAll (startGame 3 (λ k, k) (λ _, 0)).
Proof.
  apply (odd_total_leaves_single_piece 3 (λ k, k) (λ _, 0)). reflexivity.
Defined.
